(** * demo_mining.py: a toy proof-of-work chain, embedded and verified

    The program has two classes.  [Block] carries the fields of one record,
    computes its SHA-256 digest ([compute_hash]) and searches for a nonce
    ([mine_block]).  [Blockchain] holds a list of blocks, appends to it
    ([add_block]) and re-checks it ([is_chain_valid]).

    Python objects are references: the blocks live in a store and the chain
    holds their addresses.  Printing is kept as the list of lines written to
    standard output.  The [while True] loop of [mine_block] takes fuel. *)

From Stdlib Require Import ZArith List String Ascii Lia DecimalString DecimalPos DecimalZ.
From stdpp Require Import base list.
Import ListNotations.

Local Open Scope Z_scope.
Local Open Scope list_scope.

(** ** Python strings

    A Python [str] is carried as the sequence of bytes of its UTF-8 text;
    concatenation, repetition, equality and prefix tests on well-formed text
    agree with the same operations on its UTF-8 bytes. *)

Module Py.

(** [s.encode('utf-8')]: the bytes of the text, each as a number below 256. *)
Definition encode_utf8 (s : string) : list Z :=
  map (fun a => Z.of_N (N_of_ascii a)) (list_ascii_of_string s).

(** [str(n)] for an [int], within the interpreter's limit on the number of
    digits it converts. *)
Definition str_int (n : Z) : string := NilZero.string_of_int (Z.to_int n).

(** [str(x)] for a value that is a [str] or [None]. *)
Definition str_opt (x : option string) : string :=
  match x with
  | Some s => s
  | None => "None"
  end.

(** [c * n] for a one-character string [c]: empty when [n <= 0]. *)
Fixpoint repeat_char (c : ascii) (n : nat) : string :=
  match n with
  | O => EmptyString
  | S n' => String c (repeat_char c n')
  end.

Definition zeros (n : Z) : string := repeat_char "0"%char (Z.to_nat n).

(** [s.startswith(p)] *)
Fixpoint startswith (s p : string) {struct p} : bool :=
  match p with
  | EmptyString => true
  | String c p' =>
      match s with
      | EmptyString => false
      | String d s' => if Ascii.eqb c d then startswith s' p' else false
      end
  end.

(** [a == b] on values that are a [str] or [None]. *)
Definition eq_opt (a b : option string) : bool :=
  match a, b with
  | Some x, Some y => String.eqb x y
  | None, None => true
  | _, _ => false
  end.

End Py.

(** ** hashlib.sha256

    SHA-256 as FIPS 180-4 defines it, on 32-bit words kept in [Z] with the
    wrap-around written out. *)

Module SHA256.

(** [x mod 2^32], as a mask on the low 32 bits. *)
Definition mask32 : Z := 0xFFFFFFFF.
Definition wrap (x : Z) : Z := Z.land x mask32.
Definition add32 (x y : Z) : Z := wrap (x + y).
Definition rotr (n x : Z) : Z :=
  Z.lor (Z.shiftr x n) (wrap (Z.shiftl x (32 - n))).
Definition shr (n x : Z) : Z := Z.shiftr x n.
Definition not32 (x : Z) : Z := Z.lxor x mask32.

Definition ch (x y z : Z) : Z := Z.lxor (Z.land x y) (Z.land (not32 x) z).
Definition maj (x y z : Z) : Z :=
  Z.lxor (Z.lxor (Z.land x y) (Z.land x z)) (Z.land y z).
Definition bsig0 (x : Z) : Z := Z.lxor (Z.lxor (rotr 2 x) (rotr 13 x)) (rotr 22 x).
Definition bsig1 (x : Z) : Z := Z.lxor (Z.lxor (rotr 6 x) (rotr 11 x)) (rotr 25 x).
Definition ssig0 (x : Z) : Z := Z.lxor (Z.lxor (rotr 7 x) (rotr 18 x)) (shr 3 x).
Definition ssig1 (x : Z) : Z := Z.lxor (Z.lxor (rotr 17 x) (rotr 19 x)) (shr 10 x).

(** The constants are the leading fractional bits of the square and cube
    roots of the first primes; they are computed rather than listed. *)
Definition is_prime (p : Z) : bool :=
  forallb (fun d => negb (p mod d =? 0)) (map Z.of_nat (seq 2 (Z.to_nat p - 2))).

Definition primes64 : list Z :=
  Eval vm_compute in filter is_prime (map Z.of_nat (seq 2 310)).

(** Integer cube root by bisection on the bits of the result. *)
Definition icbrt (n : Z) : Z :=
  fold_left
    (fun r i => let r' := r + 2 ^ Z.of_nat i in
                if r' * r' * r' <=? n then r' else r)
    (rev (seq 0 40)) 0.

Definition K : list Z :=
  Eval vm_compute in map (fun p => wrap (icbrt (p * 2 ^ 96))) primes64.

Definition H_init : list Z :=
  Eval vm_compute in map (fun p => wrap (Z.sqrt (p * 2 ^ 64))) (firstn 8 primes64).

(** Big-endian bytes of a number, [n] of them. *)
Fixpoint be_bytes (n : nat) (x : Z) : list Z :=
  match n with
  | O => []
  | S n' => (Z.shiftr x (8 * Z.of_nat n')) mod 256 :: be_bytes n' x
  end.

Definition be_word (bs : list Z) : Z :=
  fold_left (fun acc b => acc * 256 + b) bs 0.

(** Section 5.1.1: a one bit, zero bits, and the bit length on 64 bits. *)
Definition pad (msg : list Z) : list Z :=
  let l := Z.of_nat (length msg) in
  msg ++ [128] ++ repeat 0 (Z.to_nat ((55 - l) mod 64)) ++ be_bytes 8 (8 * l).

(** The sixteen words of message block [i]. *)
Definition block_words (padded : list Z) (i : nat) : list Z :=
  map (fun t => be_word (firstn 4 (skipn (64 * i + 4 * t) padded))) (seq 0 16).

(** Section 6.2.2 step 1: the message schedule, extended one word at a time. *)
Definition schedule (m : list Z) : list Z :=
  fold_left
    (fun w t =>
       w ++ [add32 (add32 (ssig1 (nth (t - 2) w 0)) (nth (t - 7) w 0))
                   (add32 (ssig0 (nth (t - 15) w 0)) (nth (t - 16) w 0))])
    (seq 16 48) m.

Record vars := Vars { va : Z; vb : Z; vc : Z; vd : Z; ve : Z; vf : Z; vg : Z; vh : Z }.

Definition vars_of_list (l : list Z) : vars :=
  Vars (nth 0 l 0) (nth 1 l 0) (nth 2 l 0) (nth 3 l 0)
       (nth 4 l 0) (nth 5 l 0) (nth 6 l 0) (nth 7 l 0).

Definition round (v : vars) (kw : Z * Z) : vars :=
  let t1 := add32 (add32 (add32 (vh v) (bsig1 (ve v)))
                         (add32 (ch (ve v) (vf v) (vg v)) (fst kw))) (snd kw) in
  let t2 := add32 (bsig0 (va v)) (maj (va v) (vb v) (vc v)) in
  Vars (add32 t1 t2) (va v) (vb v) (vc v) (add32 (vd v) t1) (ve v) (vf v) (vg v).

Definition compress (h : vars) (m : list Z) : vars :=
  let v := fold_left round (combine K (schedule m)) h in
  Vars (add32 (va h) (va v)) (add32 (vb h) (vb v)) (add32 (vc h) (vc v))
       (add32 (vd h) (vd v)) (add32 (ve h) (ve v)) (add32 (vf h) (vf v))
       (add32 (vg h) (vg v)) (add32 (vh h) (vh v)).

(** [hashlib.sha256(msg).digest()]: thirty-two bytes. *)
Definition digest (msg : list Z) : list Z :=
  let padded := pad msg in
  let h := fold_left (fun h i => compress h (block_words padded i))
                     (seq 0 (length padded / 64)) (vars_of_list H_init) in
  be_bytes 4 (va h) ++ be_bytes 4 (vb h) ++ be_bytes 4 (vc h) ++ be_bytes 4 (vd h) ++
  be_bytes 4 (ve h) ++ be_bytes 4 (vf h) ++ be_bytes 4 (vg h) ++ be_bytes 4 (vh h).

Definition hex_digit (n : Z) : ascii :=
  match n with
  | 0 => "0" | 1 => "1" | 2 => "2" | 3 => "3" | 4 => "4" | 5 => "5" | 6 => "6"
  | 7 => "7" | 8 => "8" | 9 => "9" | 10 => "a" | 11 => "b" | 12 => "c"
  | 13 => "d" | 14 => "e" | _ => "f"
  end%char.

Fixpoint hex_of_bytes (bs : list Z) : string :=
  match bs with
  | [] => EmptyString
  | b :: bs' => String (hex_digit (b / 16)) (String (hex_digit (b mod 16)) (hex_of_bytes bs'))
  end.

(** [hashlib.sha256(msg).hexdigest()] *)
Definition hexdigest (msg : list Z) : string := hex_of_bytes (digest msg).

End SHA256.

(** ** The store and the effects of the program *)

(** [time.time()] returns a float that the program only ever reads through
    [str]; a float is carried as that text. *)
Inductive pyfloat := PyFloat (repr : string).

Definition str_float (x : pyfloat) : string :=
  match x with PyFloat repr => repr end.

(** The attributes of a [Block] object.  [data], [prev_hash] and [hash] hold
    a [str] or [None]. *)
Record Block := mkBlock {
  index : Z;
  timestamp : pyfloat;
  data : option string;
  prev_hash : option string;
  nonce : Z;
  difficulty : Z;
  hash : option string
}.

Definition with_data (b : Block) (d : option string) : Block :=
  mkBlock (index b) (timestamp b) d (prev_hash b) (nonce b) (difficulty b) (hash b).
Definition with_prev_hash (b : Block) (p : option string) : Block :=
  mkBlock (index b) (timestamp b) (data b) p (nonce b) (difficulty b) (hash b).
Definition with_nonce (b : Block) (n : Z) : Block :=
  mkBlock (index b) (timestamp b) (data b) (prev_hash b) n (difficulty b) (hash b).
Definition with_hash (b : Block) (h : option string) : Block :=
  mkBlock (index b) (timestamp b) (data b) (prev_hash b) (nonce b) (difficulty b) h.

(** An address in the store. *)
Definition loc := nat.

Record State := mkState {
  heap : list Block;        (* the [Block] objects, by address *)
  stdout : list string      (* the lines printed so far *)
}.

Inductive exn := IndexError | AttributeError.

(** What running a piece of the program gives: a value, a Python exception,
    fuel exhausted in the mining loop, or an address that is not in the store
    (which no Python reference can be). *)
Inductive outcome (A : Type) :=
| Ok (a : A)
| Raise (e : exn)
| OutOfFuel
| BadRef.
Arguments Ok {A} a.
Arguments Raise {A} e.
Arguments OutOfFuel {A}.
Arguments BadRef {A}.

Definition M (A : Type) : Type := State -> outcome (A * State).

Definition ret {A} (a : A) : M A := fun s => Ok (a, s).

Definition bind {A B} (m : M A) (k : A -> M B) : M B :=
  fun s =>
    match m s with
    | Ok (a, s') => k a s'
    | Raise e => Raise e
    | OutOfFuel => OutOfFuel
    | BadRef => BadRef
    end.

Notation "'let*' x ':=' m 'in' k" := (bind m (fun x => k))
  (at level 10, x name, m at level 100, k at level 200).
Notation "'run' m 'then' k" := (bind m (fun _ => k))
  (at level 10, m at level 100, k at level 200).

Definition raise {A} (e : exn) : M A := fun _ => Raise e.
Definition out_of_fuel {A} : M A := fun _ => OutOfFuel.

Definition read (l : loc) : M Block :=
  fun s => match heap s !! l with
           | Some b => Ok (b, s)
           | None => BadRef
           end.

Definition write (l : loc) (b : Block) : M unit :=
  fun s => match heap s !! l with
           | Some _ => Ok (tt, mkState (<[l := b]> (heap s)) (stdout s))
           | None => BadRef
           end.

Definition alloc (b : Block) : M loc :=
  fun s => Ok (length (heap s), mkState (heap s ++ [b]) (stdout s)).

Definition print (line : string) : M unit :=
  fun s => Ok (tt, mkState (heap s) (stdout s ++ [line])).

Fixpoint print_all (lines : list string) : M unit :=
  match lines with
  | [] => ret tt
  | line :: rest => run print line then print_all rest
  end.

(** ** class Block *)

(** [Block.__init__]; [now] is what [time.time()] returns. *)
Definition Block_init (now : pyfloat) (index : Z) (data : option string)
    (prev_hash : option string) (difficulty : Z) : M loc :=
  alloc (mkBlock index now data prev_hash 0 difficulty None).

(** The defaults of the constructor's keyword arguments. *)
Definition default_prev_hash : option string := Some EmptyString.
Definition default_difficulty : Z := 4.

Definition block_string (self : Block) : string :=
  (Py.str_int (index self) ++
   str_float (timestamp self) ++
   Py.str_opt (data self) ++
   Py.str_opt (prev_hash self) ++
   Py.str_int (nonce self))%string.

(** [Block.compute_hash] reads the fields of [self] and nothing else. *)
Definition compute_hash (self : Block) : string :=
  SHA256.hexdigest (Py.encode_utf8 (block_string self)).

Definition mining_line (self : Block) : string :=
  ("Mining block #" ++ Py.str_int (index self) ++ " ...")%string.

Definition mined_line (self : Block) : string :=
  ("Block #" ++ Py.str_int (index self) ++ " mined! Nonce: " ++
   Py.str_int (nonce self) ++ " | Hash: " ++ Py.str_opt (hash self))%string.

(** The [while True] loop of [mine_block], on the fields of [self]: the block
    as the loop leaves it and the line it prints, or [None] when the fuel
    runs out first. *)
Fixpoint mine_loop (fuel : nat) (target_prefix : string) (self : Block)
    : option (Block * list string) :=
  match fuel with
  | O => None
  | S fuel' =>
      let h := compute_hash self in
      let self := with_hash self (Some h) in
      if Py.startswith h target_prefix
      then Some (self, [mined_line self])
      else mine_loop fuel' target_prefix (with_nonce self (nonce self + 1))
  end.

(** [Block.mine_block] on the fields of [self]; it touches no other object. *)
Definition mine_block (fuel : nat) (self : Block) : option (Block * list string) :=
  let target_prefix := Py.zeros (difficulty self) in
  match mine_loop fuel target_prefix self with
  | Some (self', out) => Some (self', mining_line self :: out)
  | None => None
  end.

(** [b.mine_block()] for the object at address [self]. *)
Definition mine_block_at (fuel : nat) (self : loc) : M unit :=
  let* b := read self in
  match mine_block fuel b with
  | Some (b', out) => run write self b' then print_all out
  | None => out_of_fuel
  end.

(** ** class Blockchain *)

Record Blockchain := mkBlockchain {
  chain : list loc;
  chain_difficulty : Z
}.

Definition append (self : Blockchain) (l : loc) : Blockchain :=
  mkBlockchain (chain self ++ [l]) (chain_difficulty self).

Definition create_genesis_block (fuel : nat) (now : pyfloat) (self : Blockchain) : M loc :=
  let* genesis_block := Block_init now 0 (Some "Genesis Block"%string) (Some "0"%string)
                              (chain_difficulty self) in
  run mine_block_at fuel genesis_block then
  ret genesis_block.

(** [Blockchain.__init__] *)
Definition Blockchain_init (fuel : nat) (now : pyfloat) (difficulty : Z) : M Blockchain :=
  let self := mkBlockchain [] difficulty in
  let* g := create_genesis_block fuel now self in
  ret (append self g).

(** [self.chain[-1]] *)
Definition get_latest_block (self : Blockchain) : M loc :=
  match last (chain self) with
  | Some l => ret l
  | None => raise IndexError
  end.

Definition add_block (fuel : nat) (self : Blockchain) (new_block : loc) : M Blockchain :=
  let* latest := get_latest_block self in
  let* lb := read latest in
  let* nb := read new_block in
  run write new_block (with_prev_hash nb (hash lb)) then
  run mine_block_at fuel new_block then
  ret (append self new_block).

Definition hash_mismatch_line (b : Block) : string :=
  ("Block #" ++ Py.str_int (index b) ++ " hash mismatch!")%string.
Definition prev_hash_mismatch_line (b : Block) : string :=
  ("Block #" ++ Py.str_int (index b) ++ " prev_hash mismatch!")%string.
Definition difficulty_line (b : Block) : string :=
  ("Block #" ++ Py.str_int (index b) ++ " does not meet difficulty requirement!")%string.

(** [self.chain[i]] for [i >= 0] *)
Definition chain_at (self : Blockchain) (i : nat) : M loc :=
  match chain self !! i with
  | Some l => ret l
  | None => raise IndexError
  end.

(** The body of the [for] loop of [is_chain_valid] over [indices]. *)
Fixpoint valid_loop (self : Blockchain) (indices : list nat) : M bool :=
  match indices with
  | [] => ret true
  | i :: rest =>
      let* cur := chain_at self i in
      let* prev := chain_at self (i - 1) in
      let* current_block := read cur in
      let* prev_block := read prev in
      let recalculated_hash := compute_hash current_block in
      if negb (Py.eq_opt (hash current_block) (Some recalculated_hash)) then
        run print (hash_mismatch_line current_block) then ret false
      else if negb (Py.eq_opt (prev_hash current_block) (hash prev_block)) then
        run print (prev_hash_mismatch_line current_block) then ret false
      else
        match hash current_block with
        | None => raise AttributeError
        | Some h =>
            if negb (Py.startswith h (Py.zeros (difficulty current_block))) then
              run print (difficulty_line current_block) then ret false
            else valid_loop self rest
        end
  end.

(** [range(1, n)] *)
Definition range1 (n : nat) : list nat := seq 1 (n - 1).

Definition is_chain_valid (self : Blockchain) : M bool :=
  valid_loop self (range1 (length (chain self))).

(** ** Building a chain as the driver does *)

(** One pass of the driver's loop: construct a block, then add it. *)
Record request := mkRequest {
  req_now : pyfloat;
  req_index : Z;
  req_data : option string;
  req_difficulty : Z
}.

Definition add (fuel : nat) (r : request) (self : Blockchain) : M Blockchain :=
  let* new_block := Block_init (req_now r) (req_index r) (req_data r) default_prev_hash
                          (req_difficulty r) in
  add_block fuel self new_block.

Fixpoint add_all (fuel : nat) (rs : list request) (self : Blockchain) : M Blockchain :=
  match rs with
  | [] => ret self
  | r :: rest => let* self' := add fuel r self in add_all fuel rest self'
  end.

Definition build (fuel : nat) (now : pyfloat) (difficulty : Z) (rs : list request)
    : M Blockchain :=
  let* self := Blockchain_init fuel now difficulty in
  add_all fuel rs self.

Definition empty_state : State := mkState [] [].

(** ** The words of the specification

    The digest and the validator as the specification describes them, to be
    compared with [compute_hash] and [is_chain_valid]. *)

(** The fields in the fixed order index, created_at, payload, previous_hash,
    nonce, each as text. *)
Definition canonical_fields (r : Block) : list string :=
  [Py.str_int (index r); str_float (timestamp r); Py.str_opt (data r);
   Py.str_opt (prev_hash r); Py.str_int (nonce r)].

Definition canonical_encoding (r : Block) : list Z :=
  Py.encode_utf8 (String.concat EmptyString (canonical_fields r)).

Definition Digest (r : Block) : string :=
  SHA256.hex_of_bytes (SHA256.digest (canonical_encoding r)).

Definition is_lower_hex (c : ascii) : bool :=
  existsb (Ascii.eqb c) (list_ascii_of_string "0123456789abcdef").

Fixpoint all_chars (p : ascii -> bool) (s : string) : bool :=
  match s with
  | EmptyString => true
  | String c s' => p c && all_chars p s'
  end.

Inductive category := hash_mismatch | link_mismatch | difficulty_unmet.

(** The three checks of the specification's validator at one record, in its
    order; [None] when all pass. *)
Definition check_record (cur prev : Block) : option category :=
  if negb (Py.eq_opt (hash cur) (Some (Digest cur))) then Some hash_mismatch
  else if negb (Py.eq_opt (prev_hash cur) (hash prev)) then Some link_mismatch
  else if negb (Py.startswith (Digest cur) (Py.zeros (difficulty cur)))
       then Some difficulty_unmet
  else None.




(** The line the program prints for a category at a block. *)
Definition failure_line (b : Block) (cat : category) : string :=
  match cat with
  | hash_mismatch => hash_mismatch_line b
  | link_mismatch => prev_hash_mismatch_line b
  | difficulty_unmet => difficulty_line b
  end.

(** Split a conjunction into its parts, and nothing else. *)
Ltac conjs := repeat match goal with |- _ /\ _ => split end.

(** ** Strings *)

Lemma startswith_app (s p : string) :
  Py.startswith s p = true <-> exists r, s = (p ++ r)%string.
Proof.
  revert s. induction p as [|c p IH]; intros s; simpl.
  - split; [intros _; exists s; reflexivity | reflexivity].
  - destruct s as [|d s].
    + split; [discriminate | intros [r Hr]; discriminate].
    + destruct (Ascii.eqb_spec c d) as [->|Hne].
      * rewrite IH. split; intros [r Hr]; exists r.
        -- now rewrite Hr.
        -- now inversion Hr.
      * split; [discriminate | intros [r Hr]; inversion Hr; congruence].
Qed.

Lemma startswith_repeat_get (c : ascii) (n : nat) (s : string) :
  Py.startswith s (Py.repeat_char c n) = true <->
  forall i, (i < n)%nat -> String.get i s = Some c.
Proof.
  revert s. induction n as [|n IH]; intros s; simpl.
  - split; [intros _ i Hi; lia | reflexivity].
  - destruct s as [|d s].
    + split; [discriminate | intros H; specialize (H O ltac:(lia)); discriminate].
    + destruct (Ascii.eqb_spec c d) as [->|Hne].
      * rewrite IH. split.
        -- intros H [|i] Hi; simpl; [reflexivity | apply H; lia].
        -- intros H i Hi. apply (H (S i)). lia.
      * split; [discriminate |].
        intros H. specialize (H O ltac:(lia)). simpl in H. congruence.
Qed.

Lemma zeros_nonpos (d : Z) : d <= 0 -> Py.zeros d = EmptyString.
Proof.
  intros Hd. unfold Py.zeros. replace (Z.to_nat d) with O by lia. reflexivity.
Qed.

Lemma eq_opt_true (a b : option string) : Py.eq_opt a b = true <-> a = b.
Proof.
  destruct a as [x|], b as [y|]; simpl; try (split; congruence).
  rewrite String.eqb_eq. split; congruence.
Qed.

Lemma eq_opt_false (a b : option string) : Py.eq_opt a b = false <-> a <> b.
Proof.
  rewrite <- eq_opt_true. destruct (Py.eq_opt a b); split; congruence.
Qed.

(** [str] of an integer is its decimal text: reading it back gives the number. *)
Lemma str_int_decimal (n : Z) :
  option_map Z.of_int (NilZero.int_of_string (Py.str_int n)) = Some n.
Proof.
  unfold Py.str_int. rewrite NilZero.isi.
  - simpl. now rewrite DecimalZ.of_to.
  - destruct n; simpl; try discriminate.
    intros [= H]. now apply DecimalPos.Unsigned.to_uint_nonnil in H.
  - destruct n; simpl; try discriminate.
    intros [= H]. now apply DecimalPos.Unsigned.to_uint_nonnil in H.
Qed.

(** ** SHA-256: shape of the digest *)

Example sha256_abc :
  SHA256.hexdigest (Py.encode_utf8 "abc") =
  "ba7816bf8f01cfea414140de5dae2223b00361a396177a9cb410ff61f20015ad"%string.
Proof. vm_compute. reflexivity. Qed.

Example sha256_empty :
  SHA256.hexdigest (Py.encode_utf8 "") =
  "e3b0c44298fc1c149afbf4c8996fb92427ae41e4649b934ca495991b7852b855"%string.
Proof. vm_compute. reflexivity. Qed.

Example sha256_two_blocks :
  SHA256.hexdigest
    (Py.encode_utf8 "abcdbcdecdefdefgefghfghighijhijkijkljklmklmnlmnomnopnopq") =
  "248d6a61d20638b8e5c026930c3e6039a33ce45964ff2167f6ecedd419db06c1"%string.
Proof. vm_compute. reflexivity. Qed.

Lemma be_bytes_length (n : nat) (x : Z) : length (SHA256.be_bytes n x) = n.
Proof. induction n as [|n IH]; simpl; [reflexivity | now rewrite IH]. Qed.

Lemma digest_length (msg : list Z) : length (SHA256.digest msg) = 32%nat.
Proof.
  unfold SHA256.digest. cbv zeta.
  rewrite !length_app, !be_bytes_length. reflexivity.
Qed.

Lemma hex_of_bytes_length (bs : list Z) :
  String.length (SHA256.hex_of_bytes bs) = (2 * length bs)%nat.
Proof.
  induction bs as [|b bs IH]; simpl; [reflexivity |]. rewrite IH. lia.
Qed.

Lemma hex_digit_lower (n : Z) : is_lower_hex (SHA256.hex_digit n) = true.
Proof.
  unfold SHA256.hex_digit.
  repeat match goal with
         | |- context [match ?x with _ => _ end] => destruct x
         end; reflexivity.
Qed.

Lemma hex_of_bytes_lower (bs : list Z) :
  all_chars is_lower_hex (SHA256.hex_of_bytes bs) = true.
Proof.
  induction bs as [|b bs IH]; [reflexivity |].
  cbn [SHA256.hex_of_bytes all_chars].
  now rewrite !hex_digit_lower, IH.
Qed.

Arguments compute_hash : simpl never.
Arguments Digest : simpl never.

Lemma compute_hash_Digest (b : Block) : compute_hash b = Digest b.
Proof. reflexivity. Qed.

Lemma compute_hash_length (b : Block) : String.length (compute_hash b) = 64%nat.
Proof.
  unfold compute_hash, SHA256.hexdigest.
  now rewrite hex_of_bytes_length, digest_length.
Qed.

(** ** The mining loop *)

Lemma compute_hash_with_hash (b : Block) (h : option string) :
  compute_hash (with_hash b h) = compute_hash b.
Proof. reflexivity. Qed.

Lemma with_nonce_same (b : Block) : with_nonce b (nonce b) = b.
Proof. now destruct b. Qed.

(** The block as the loop leaves it when it stops at nonce [n]. *)
Definition sealed_at (b : Block) (n : Z) : Block :=
  with_hash (with_nonce b n) (Some (compute_hash (with_nonce b n))).

Lemma mine_loop_inv (target : string) (fuel : nat) :
  forall (b b' : Block) (out : list string),
    mine_loop fuel target b = Some (b', out) ->
    exists n : nat,
      (n < fuel)%nat /\
      b' = sealed_at b (nonce b + Z.of_nat n) /\
      out = [mined_line b'] /\
      Py.startswith (compute_hash (with_nonce b (nonce b + Z.of_nat n))) target = true /\
      forall j : nat, (j < n)%nat ->
        Py.startswith (compute_hash (with_nonce b (nonce b + Z.of_nat j))) target = false.
Proof.
  induction fuel as [|fuel IH]; intros b b' out H; [discriminate |].
  cbn [mine_loop] in H. cbv zeta in H.
  destruct (Py.startswith (compute_hash b) target) eqn:Hs.
  - injection H as <- <-. exists O.
    replace (nonce b + Z.of_nat 0) with (nonce b) by lia.
    rewrite with_nonce_same.
    conjs; [lia | | reflexivity | assumption | intros j Hj; lia].
    unfold sealed_at. now rewrite with_nonce_same.
  - apply IH in H as (n & Hn & Hb' & Hout & Hhit & Hmiss).
    exists (S n).
    replace (nonce b + Z.of_nat (S n)) with (nonce b + 1 + Z.of_nat n) by lia.
    conjs; [lia | exact Hb' | exact Hout | exact Hhit |].
    intros [|j] Hj.
    + replace (nonce b + Z.of_nat 0) with (nonce b) by lia.
      now rewrite with_nonce_same.
    + replace (nonce b + Z.of_nat (S j)) with (nonce b + 1 + Z.of_nat j) by lia.
      apply (Hmiss j). lia.
Qed.

(** Enough fuel gives the result: a nonce that meets the target, [n] steps
    ahead, is found with [n + 1] attempts or fewer. *)
Lemma mine_loop_complete (target : string) (n : nat) :
  forall b : Block,
    Py.startswith (compute_hash (with_nonce b (nonce b + Z.of_nat n))) target = true ->
    exists r, mine_loop (S n) target b = Some r.
Proof.
  induction n as [|n IH]; intros b H; cbn [mine_loop]; cbv zeta.
  - replace (nonce b + Z.of_nat 0) with (nonce b) in H by lia.
    rewrite with_nonce_same in H. rewrite H. eauto.
  - destruct (Py.startswith (compute_hash b) target); [eauto |].
    apply IH.
    replace (nonce b + Z.of_nat (S n)) with (nonce b + 1 + Z.of_nat n) in H by lia.
    exact H.
Qed.

(** More fuel does not change a result. *)
Lemma mine_loop_mono (target : string) (fuel : nat) :
  forall (fuel' : nat) (b : Block) r,
    mine_loop fuel target b = Some r -> (fuel <= fuel')%nat ->
    mine_loop fuel' target b = Some r.
Proof.
  induction fuel as [|fuel IH]; intros fuel' b r H Hle; [discriminate |].
  destruct fuel' as [|fuel']; [lia |].
  cbn [mine_loop] in *. cbv zeta in *.
  destruct (Py.startswith (compute_hash b) target); [exact H |].
  apply IH; [exact H | lia].
Qed.

Lemma mine_block_inv (fuel : nat) (b b' : Block) (out : list string) :
  mine_block fuel b = Some (b', out) ->
  exists n : nat,
    (n < fuel)%nat /\
    b' = sealed_at b (nonce b + Z.of_nat n) /\
    out = [mining_line b; mined_line b'] /\
    Py.startswith (compute_hash (with_nonce b (nonce b + Z.of_nat n)))
                  (Py.zeros (difficulty b)) = true /\
    forall j : nat, (j < n)%nat ->
      Py.startswith (compute_hash (with_nonce b (nonce b + Z.of_nat j)))
                    (Py.zeros (difficulty b)) = false.
Proof.
  unfold mine_block. cbv zeta.
  destruct (mine_loop fuel (Py.zeros (difficulty b)) b) as [[b1 out1]|] eqn:E;
    [|discriminate].
  intros [= <- <-].
  apply mine_loop_inv in E as (n & Hn & Hb' & Hout & Hhit & Hmiss).
  exists n. conjs; try assumption. now rewrite Hout.
Qed.

Lemma mine_block_mono (fuel fuel' : nat) (b : Block) r :
  mine_block fuel b = Some r -> (fuel <= fuel')%nat -> mine_block fuel' b = Some r.
Proof.
  unfold mine_block. cbv zeta.
  destruct (mine_loop fuel (Py.zeros (difficulty b)) b) as [[b1 out1]|] eqn:E;
    [|discriminate].
  intros H Hle. now rewrite (mine_loop_mono _ _ _ _ _ E Hle).
Qed.

(** [mine_block] returns exactly when some nonce at or after the starting one
    meets the target. *)
Lemma mine_block_returns_iff (b : Block) :
  (exists fuel r, mine_block fuel b = Some r) <->
  (exists n : nat,
     Py.startswith (compute_hash (with_nonce b (nonce b + Z.of_nat n)))
                   (Py.zeros (difficulty b)) = true).
Proof.
  split.
  - intros (fuel & [b' out] & H).
    apply mine_block_inv in H as (n & _ & _ & _ & Hhit & _). eauto.
  - intros (n & H). exists (S n).
    destruct (mine_loop_complete _ _ _ H) as [[b' out] Hr].
    unfold mine_block. cbv zeta. rewrite Hr. eauto.
Qed.

(** ** The digest and the miner *)

(** C4: the digest of a record is SHA-256 over the UTF-8 bytes of the text of
    index, created_at, payload, previous_hash and nonce joined in that order,
    index and nonce in decimal, written as 64 lowercase hexadecimal
    characters. *)
Theorem compute_hash_canonical (b : Block) :
  compute_hash b = Digest b /\
  block_string b =
    (Py.str_int (index b) ++ str_float (timestamp b) ++ Py.str_opt (data b) ++
     Py.str_opt (prev_hash b) ++ Py.str_int (nonce b))%string /\
  option_map Z.of_int (NilZero.int_of_string (Py.str_int (index b))) = Some (index b) /\
  option_map Z.of_int (NilZero.int_of_string (Py.str_int (nonce b))) = Some (nonce b) /\
  String.length (compute_hash b) = 64%nat /\
  all_chars is_lower_hex (compute_hash b) = true.
Proof.
  conjs.
  - apply compute_hash_Digest.
  - reflexivity.
  - apply str_int_decimal.
  - apply str_int_decimal.
  - apply compute_hash_length.
  - apply hex_of_bytes_lower.
Qed.

(** A genesis record as the constructor leaves it, and what [mine_block]
    makes of it at difficulty 1. *)
Definition sample_block (d : Z) : Block :=
  mkBlock 0 (PyFloat "1700000318.5") (Some "Genesis Block"%string) (Some "0"%string)
          0 d None.

Definition sample_mined : option (Block * list string) :=
  Eval vm_compute in mine_block 10 (sample_block 1).

Definition sample_sealed : Block :=
  match sample_mined with Some (b, _) => b | None => sample_block 1 end.

Definition sample_out : list string :=
  match sample_mined with Some (_, out) => out | None => [] end.

Lemma sample_mined_eq :
  mine_block 10 (sample_block 1) = Some (sample_sealed, sample_out).
Proof. vm_compute. reflexivity. Qed.

Example sample_sealed_nonce :
  nonce sample_sealed = 3 /\
  hash sample_sealed =
    Some "04b54bb54b5da87d83c2e9b731edd79d0fd5e9b22d95231a3690332c54145a68"%string.
Proof. split; reflexivity. Qed.

(** C2: when [mine_block] returns, the stored hash starts with [difficulty]
    characters '0' and is the digest of the record's fields as they are then,
    final nonce included; the other hashed fields are as they were. *)
Theorem mine_block_seals (fuel : nat) (b b' : Block) (out : list string) :
  mine_block fuel b = Some (b', out) ->
  exists h : string,
    hash b' = Some h /\
    h = compute_hash b' /\
    h = Digest b' /\
    Py.startswith h (Py.zeros (difficulty b')) = true /\
    (forall i : nat, (i < Z.to_nat (difficulty b'))%nat ->
       String.get i h = Some "0"%char) /\
    b' = with_hash (with_nonce b (nonce b')) (Some h).
Proof.
  intros H. apply mine_block_inv in H as (n & _ & -> & _ & Hhit & _).
  set (m := nonce b + Z.of_nat n) in *.
  exists (compute_hash (with_nonce b m)).
  assert (Hd : difficulty (sealed_at b m) = difficulty b) by reflexivity.
  rewrite Hd.
  conjs; try reflexivity; try exact Hhit.
  apply startswith_repeat_get. exact Hhit.
Qed.

Lemma mine_block_seals_witness :
  mine_block 10 (sample_block 1) = Some (sample_sealed, sample_out) /\
  exists h : string,
    hash sample_sealed = Some h /\
    h = compute_hash sample_sealed /\
    h = Digest sample_sealed /\
    Py.startswith h (Py.zeros (difficulty sample_sealed)) = true /\
    (forall i : nat, (i < Z.to_nat (difficulty sample_sealed))%nat ->
       String.get i h = Some "0"%char) /\
    sample_sealed = with_hash (with_nonce (sample_block 1) (nonce sample_sealed)) (Some h).
Proof.
  split; [exact sample_mined_eq |].
  exact (mine_block_seals 10 (sample_block 1) sample_sealed sample_out sample_mined_eq).
Defined.

(** C10: the nonce [mine_block] stops at is the least one, from the nonce the
    call started with, whose digest meets the target; every nonce tried before
    it fails the target. *)
Theorem mine_block_least_nonce (fuel : nat) (b b' : Block) (out : list string) :
  mine_block fuel b = Some (b', out) ->
  nonce b <= nonce b' /\
  Py.startswith (compute_hash (with_nonce b (nonce b'))) (Py.zeros (difficulty b)) = true /\
  (forall k : Z, nonce b <= k < nonce b' ->
     Py.startswith (compute_hash (with_nonce b k)) (Py.zeros (difficulty b)) = false) /\
  (forall k : Z, nonce b <= k ->
     Py.startswith (compute_hash (with_nonce b k)) (Py.zeros (difficulty b)) = true ->
     nonce b' <= k).
Proof.
  intros H. apply mine_block_inv in H as (n & _ & -> & _ & Hhit & Hmiss).
  assert (Hn : nonce (sealed_at b (nonce b + Z.of_nat n)) = nonce b + Z.of_nat n)
    by reflexivity.
  rewrite Hn.
  assert (Hbelow : forall k : Z, nonce b <= k < nonce b + Z.of_nat n ->
            Py.startswith (compute_hash (with_nonce b k)) (Py.zeros (difficulty b)) = false).
  { intros k Hk.
    replace k with (nonce b + Z.of_nat (Z.to_nat (k - nonce b))) by lia.
    apply Hmiss. lia. }
  conjs; [lia | exact Hhit | exact Hbelow |].
  intros k Hk Hok.
  destruct (Z_lt_le_dec k (nonce b + Z.of_nat n)) as [Hlt|Hge]; [|exact Hge].
  rewrite Hbelow in Hok by lia. discriminate.
Qed.

Lemma mine_block_least_nonce_witness :
  mine_block 10 (sample_block 1) = Some (sample_sealed, sample_out) /\
  nonce (sample_block 1) <= nonce sample_sealed /\
  Py.startswith (compute_hash (with_nonce (sample_block 1) (nonce sample_sealed)))
                (Py.zeros (difficulty (sample_block 1))) = true /\
  (forall k : Z, nonce (sample_block 1) <= k < nonce sample_sealed ->
     Py.startswith (compute_hash (with_nonce (sample_block 1) k))
                   (Py.zeros (difficulty (sample_block 1))) = false) /\
  (forall k : Z, nonce (sample_block 1) <= k ->
     Py.startswith (compute_hash (with_nonce (sample_block 1) k))
                   (Py.zeros (difficulty (sample_block 1))) = true ->
     nonce sample_sealed <= k).
Proof.
  split; [exact sample_mined_eq |].
  exact (mine_block_least_nonce 10 (sample_block 1) sample_sealed sample_out sample_mined_eq).
Defined.

(** C9: with difficulty 0 [mine_block] stops at its first attempt, whatever
    the digest is, and leaves the nonce as it was: 0 for a record that has
    not been mined before. *)
Theorem mine_block_difficulty_zero (fuel : nat) (b : Block) :
  difficulty b = 0 ->
  exists (b' : Block) (out : list string),
    mine_block (S fuel) b = Some (b', out) /\
    b' = with_hash b (Some (compute_hash b)) /\
    nonce b' = nonce b /\
    (nonce b = 0 -> nonce b' = 0).
Proof.
  intros Hd. unfold mine_block. cbv zeta. rewrite Hd.
  cbn [mine_loop]. cbv zeta. change (Py.zeros 0) with EmptyString.
  cbn [Py.startswith].
  eexists _, _. conjs; [reflexivity | reflexivity | reflexivity | intros H; exact H].
Qed.

Lemma mine_block_difficulty_zero_witness :
  difficulty (sample_block 0) = 0 /\
  exists (b' : Block) (out : list string),
    mine_block 1 (sample_block 0) = Some (b', out) /\
    b' = with_hash (sample_block 0) (Some (compute_hash (sample_block 0))) /\
    nonce b' = nonce (sample_block 0) /\
    (nonce (sample_block 0) = 0 -> nonce b' = 0).
Proof.
  split; [reflexivity |].
  exact (mine_block_difficulty_zero 0 (sample_block 0) eq_refl).
Defined.

(** ** Running the effects *)

Lemma print_all_run (out : list string) :
  forall s, print_all out s = Ok (tt, mkState (heap s) (stdout s ++ out)).
Proof.
  induction out as [|line out IH]; intros [h o]; cbn [print_all].
  - unfold ret. cbn. now rewrite app_nil_r.
  - unfold bind, print. cbn. rewrite IH. cbn. now rewrite <- app_assoc.
Qed.

Lemma mine_block_at_run (fuel : nat) (l : loc) (s : State) (b b' : Block)
    (out : list string) :
  heap s !! l = Some b ->
  mine_block fuel b = Some (b', out) ->
  mine_block_at fuel l s = Ok (tt, mkState (<[l := b']> (heap s)) (stdout s ++ out)).
Proof.
  intros Hl Hm. unfold mine_block_at, bind, read, write.
  rewrite Hl, Hm, Hl. now rewrite print_all_run.
Qed.

Lemma mine_block_at_inv (fuel : nat) (l : loc) (s s' : State) (u : unit) :
  mine_block_at fuel l s = Ok (u, s') ->
  exists b b' out,
    heap s !! l = Some b /\
    mine_block fuel b = Some (b', out) /\
    s' = mkState (<[l := b']> (heap s)) (stdout s ++ out).
Proof.
  unfold mine_block_at, bind, read.
  destruct (heap s !! l) as [b|] eqn:Hl; [|discriminate].
  destruct (mine_block fuel b) as [[b' out]|] eqn:Hm; [|discriminate].
  unfold write. rewrite Hl, print_all_run. cbn.
  intros [= _ <-]. now exists b, b', out.
Qed.

Lemma insert_fresh (h : list Block) (b0 b : Block) :
  <[length h := b]> (h ++ [b0]) = h ++ [b].
Proof.
  rewrite insert_app_r_alt by lia.
  now replace (length h - length h)%nat with O by lia.
Qed.

Lemma bind_inv {A B : Type} (m : M A) (k : A -> M B) (s : State) (r : B * State) :
  bind m k s = Ok r -> exists a s1, m s = Ok (a, s1) /\ k a s1 = Ok r.
Proof.
  unfold bind. destruct (m s) as [[a s1]| | |]; try discriminate. eauto.
Qed.

Lemma ret_inv {A : Type} (a a' : A) (s s' : State) :
  ret a s = Ok (a', s') -> a' = a /\ s' = s.
Proof. unfold ret. intros [= <- <-]. auto. Qed.

Lemma read_inv (l : loc) (s s' : State) (b : Block) :
  read l s = Ok (b, s') -> heap s !! l = Some b /\ s' = s.
Proof.
  unfold read. destruct (heap s !! l); [|discriminate]. intros [= <- <-]. auto.
Qed.

Lemma write_inv (l : loc) (b : Block) (s s' : State) (u : unit) :
  write l b s = Ok (u, s') ->
  (l < length (heap s))%nat /\ s' = mkState (<[l := b]> (heap s)) (stdout s).
Proof.
  unfold write. destruct (heap s !! l) eqn:E; [|discriminate].
  intros [= _ <-]. split; [|reflexivity]. eapply lookup_lt_Some, E.
Qed.

Lemma lookup_fresh (h : list Block) (b : Block) : (h ++ [b]) !! length h = Some b.
Proof.
  rewrite lookup_app_r by lia.
  now replace (length h - length h)%nat with O by lia.
Qed.

(** [Blockchain(difficulty)]: the genesis block is a new object, mined. *)
Lemma Blockchain_init_inv (fuel : nat) (now : pyfloat) (d : Z) (s s' : State)
    (c : Blockchain) :
  Blockchain_init fuel now d s = Ok (c, s') ->
  exists b' out,
    mine_block fuel (mkBlock 0 now (Some "Genesis Block"%string) (Some "0"%string) 0 d None)
      = Some (b', out) /\
    c = mkBlockchain [length (heap s)] d /\
    s' = mkState (heap s ++ [b']) (stdout s ++ out).
Proof.
  unfold Blockchain_init, create_genesis_block, Block_init. cbv zeta. intros H.
  apply bind_inv in H as (g & s1 & H & Hret).
  apply ret_inv in Hret as [-> ->].
  apply bind_inv in H as (g0 & s2 & Halloc & H).
  unfold alloc in Halloc. injection Halloc as <- <-.
  apply bind_inv in H as (u & s3 & Hmine & Hret).
  apply ret_inv in Hret as [-> ->].
  apply mine_block_at_inv in Hmine as (b & b' & out & Hl & Hmine & ->).
  cbn [heap stdout chain_difficulty] in *.
  rewrite lookup_fresh in Hl. injection Hl as <-.
  exists b', out. rewrite insert_fresh. auto.
Qed.

(** One pass of the driver: the new block is a new object; it is linked to
    the block that was last, then mined, then appended. *)
Lemma add_inv (fuel : nat) (r : request) (c c' : Blockchain) (s s' : State) :
  add fuel r c s = Ok (c', s') ->
  exists latest lb b' out,
    last (chain c) = Some latest /\
    (heap s ++ [mkBlock (req_index r) (req_now r) (req_data r) default_prev_hash 0
                        (req_difficulty r) None]) !! latest = Some lb /\
    mine_block fuel (mkBlock (req_index r) (req_now r) (req_data r) (hash lb) 0
                             (req_difficulty r) None) = Some (b', out) /\
    c' = append c (length (heap s)) /\
    s' = mkState (heap s ++ [b']) (stdout s ++ out).
Proof.
  unfold add, Block_init. intros H.
  apply bind_inv in H as (nl & s1 & Halloc & H).
  unfold alloc in Halloc. injection Halloc as <- <-.
  unfold add_block, get_latest_block in H.
  destruct (last (chain c)) as [latest|] eqn:Hlast.
  2:{ apply bind_inv in H as (? & ? & H & _). discriminate. }
  apply bind_inv in H as (latest' & s1 & Hret & H).
  apply ret_inv in Hret as [-> ->].
  apply bind_inv in H as (lb & s1 & Hlb & H).
  apply read_inv in Hlb as [Hlb ->].
  apply bind_inv in H as (nb & s1 & Hnb & H).
  apply read_inv in Hnb as [Hnb ->].
  apply bind_inv in H as (u & s1 & Hw & H).
  apply write_inv in Hw as [_ ->].
  apply bind_inv in H as (u' & s2 & Hmine & Hret).
  apply ret_inv in Hret as [-> ->].
  apply mine_block_at_inv in Hmine as (b & b' & out & Hl & Hmine & ->).
  cbn [heap stdout] in *.
  rewrite lookup_fresh in Hnb. injection Hnb as <-.
  rewrite insert_fresh, lookup_fresh in Hl. injection Hl as <-.
  exists latest, lb, b', out. rewrite !insert_fresh. auto.
Qed.

(** ** The validator, one index at a time *)

Lemma valid_loop_step (c : Blockchain) (i : nat) (rest : list nat) (s : State)
    (l l' : loc) (b b' : Block) :
  chain c !! i = Some l ->
  chain c !! (i - 1)%nat = Some l' ->
  heap s !! l = Some b ->
  heap s !! l' = Some b' ->
  valid_loop c (i :: rest) s =
    match check_record b b' with
    | Some cat => Ok (false, mkState (heap s) (stdout s ++ [failure_line b cat]))
    | None => valid_loop c rest s
    end.
Proof.
  intros Hi Hi' Hl Hl'. cbn [valid_loop].
  unfold bind, chain_at, read, ret, print. rewrite Hi, Hi', Hl, Hl'.
  unfold check_record. change (Digest b) with (compute_hash b).
  destruct (Py.eq_opt (hash b) (Some (compute_hash b))) eqn:Hh; cbn [negb];
    [|reflexivity].
  apply eq_opt_true in Hh.
  destruct (Py.eq_opt (prev_hash b) (hash b')); cbn [negb]; [|reflexivity].
  rewrite Hh.
  destruct (Py.startswith (compute_hash b) (Py.zeros (difficulty b))); reflexivity.
Qed.

(** What the three checks say when they all pass. *)
Lemma check_record_None (b b' : Block) :
  check_record b b' = None <->
  hash b = Some (compute_hash b) /\
  prev_hash b = hash b' /\
  Py.startswith (compute_hash b) (Py.zeros (difficulty b)) = true.
Proof.
  unfold check_record. change (Digest b) with (compute_hash b).
  destruct (Py.eq_opt (hash b) (Some (compute_hash b))) eqn:Hh; cbn [negb].
  - apply eq_opt_true in Hh.
    destruct (Py.eq_opt (prev_hash b) (hash b')) eqn:Hp; cbn [negb].
    + apply eq_opt_true in Hp.
      destruct (Py.startswith (compute_hash b) (Py.zeros (difficulty b))); cbn [negb].
      * tauto.
      * split; [discriminate | intros (_ & _ & H); discriminate].
    + apply eq_opt_false in Hp. split; [discriminate | tauto].
  - apply eq_opt_false in Hh. split; [discriminate | tauto].
Qed.

(** ** Chains that the program built *)

Definition sealed (b : Block) : Prop :=
  hash b = Some (compute_hash b) /\
  Py.startswith (compute_hash b) (Py.zeros (difficulty b)) = true.

Record chain_ok (h : list Block) (c : list loc) : Prop := mk_chain_ok {
  ok_last : exists l, last c = Some l;
  ok_sealed : forall i l, c !! i = Some l -> exists b, h !! l = Some b /\ sealed b;
  ok_linked : forall i l' l b' b,
      c !! i = Some l' -> c !! S i = Some l ->
      h !! l' = Some b' -> h !! l = Some b ->
      prev_hash b = hash b'
}.

Lemma mine_block_sealed (fuel : nat) (b b' : Block) (out : list string) :
  mine_block fuel b = Some (b', out) -> sealed b' /\ prev_hash b' = prev_hash b.
Proof.
  intros H. apply mine_block_inv in H as (n & _ & -> & _ & Hhit & _).
  unfold sealed. conjs; [reflexivity | exact Hhit | reflexivity].
Qed.

Lemma chain_ok_genesis (h : list Block) (b : Block) :
  sealed b -> chain_ok (h ++ [b]) [length h].
Proof.
  intros Hb. split.
  - now exists (length h).
  - intros [|i] l Hi; [|discriminate]. injection Hi as <-.
    exists b. split; [apply lookup_fresh | exact Hb].
  - intros [|i] l' l b1 b2 _ Hi; discriminate.
Qed.

Lemma chain_ok_append (h : list Block) (c : list loc) (latest : loc)
    (lb b nb : Block) :
  chain_ok h c ->
  last c = Some latest ->
  (h ++ [nb]) !! latest = Some lb ->
  sealed b -> prev_hash b = hash lb ->
  chain_ok (h ++ [b]) (c ++ [length h]).
Proof.
  intros [Hlast Hsealed Hlinked] Hlatest Hlb Hb Hprev.
  assert (Hold : forall i l, c !! i = Some l -> (h ++ [b]) !! l = h !! l /\
                                           (h ++ [nb]) !! l = h !! l).
  { intros i l Hi. destruct (Hsealed i l Hi) as (x & Hx & _).
    apply lookup_lt_Some in Hx. now rewrite !lookup_app_l by lia. }
  split.
  - exists (length h). now rewrite last_snoc.
  - intros i l Hi.
    destruct (decide (i < length c)%nat) as [Hlt|Hge].
    + rewrite lookup_app_l in Hi by lia.
      destruct (Hold i l Hi) as [-> _]. eauto.
    + rewrite lookup_app_r in Hi by lia.
      destruct (i - length c)%nat; [|discriminate]. injection Hi as <-.
      exists b. split; [apply lookup_fresh | exact Hb].
  - intros i l' l b1 b2 Hi HSi Hl' Hl.
    destruct (decide (S i < length c)%nat) as [Hlt|Hge].
    + rewrite lookup_app_l in Hi, HSi by lia.
      destruct (Hold _ _ Hi) as [E1 _]. destruct (Hold _ _ HSi) as [E2 _].
      rewrite E1 in Hl'. rewrite E2 in Hl. eauto.
    + assert (HiS : S i = length c).
      { apply lookup_lt_Some in HSi. rewrite length_app in HSi. cbn in HSi. lia. }
      rewrite lookup_app_r in HSi by lia.
      replace (S i - length c)%nat with O in HSi by lia. injection HSi as <-.
      rewrite lookup_fresh in Hl. injection Hl as <-.
      rewrite lookup_app_l in Hi by lia.
      rewrite last_lookup in Hlatest.
      replace (pred (length c)) with i in Hlatest by lia.
      rewrite Hi in Hlatest. injection Hlatest as ->.
      destruct (Hold _ _ Hi) as [E1 E2]. rewrite E1 in Hl'. rewrite E2 in Hlb.
      rewrite Hprev. congruence.
Qed.

Lemma add_chain_ok (fuel : nat) (r : request) (c c' : Blockchain) (s s' : State) :
  chain_ok (heap s) (chain c) ->
  add fuel r c s = Ok (c', s') ->
  chain_ok (heap s') (chain c').
Proof.
  intros Hok H.
  apply add_inv in H as (latest & lb & b' & out & Hlast & Hlb & Hmine & -> & ->).
  apply mine_block_sealed in Hmine as [Hsealed Hprev].
  cbn [heap append chain].
  eapply chain_ok_append; eauto.
Qed.

Lemma add_all_chain_ok (fuel : nat) (rs : list request) :
  forall (c c' : Blockchain) (s s' : State),
    chain_ok (heap s) (chain c) ->
    add_all fuel rs c s = Ok (c', s') ->
    chain_ok (heap s') (chain c').
Proof.
  induction rs as [|r rs IH]; intros c c' s s' Hok H; cbn [add_all] in H.
  - apply ret_inv in H as [-> ->]. exact Hok.
  - apply bind_inv in H as (c1 & s1 & Hadd & H).
    eapply IH; [|exact H]. eapply add_chain_ok; eauto.
Qed.

Lemma build_chain_ok (fuel : nat) (now : pyfloat) (d : Z) (rs : list request)
    (s s' : State) (c : Blockchain) :
  build fuel now d rs s = Ok (c, s') -> chain_ok (heap s') (chain c).
Proof.
  unfold build. intros H.
  apply bind_inv in H as (c0 & s0 & Hinit & H).
  eapply add_all_chain_ok; [|exact H].
  apply Blockchain_init_inv in Hinit as (b' & out & Hmine & -> & ->).
  apply mine_block_sealed in Hmine as [Hsealed _].
  cbn [heap chain]. now apply chain_ok_genesis.
Qed.

Lemma chain_ok_valid_loop (c : Blockchain) (s : State) :
  chain_ok (heap s) (chain c) ->
  forall indices : list nat,
    Forall (fun i => (1 <= i < length (chain c))%nat) indices ->
    valid_loop c indices s = Ok (true, s).
Proof.
  intros [_ Hsealed Hlinked] indices.
  induction indices as [|i rest IH]; intros Hall; [reflexivity |].
  inversion Hall as [|? ? [Hi1 Hi2] Hrest]; subst.
  destruct (lookup_lt_is_Some_2 (chain c) i Hi2) as [l Hl].
  destruct (lookup_lt_is_Some_2 (chain c) (i - 1)%nat ltac:(lia)) as [l' Hl'].
  destruct (Hsealed _ _ Hl) as (b & Hb & Hhash & Hzero).
  destruct (Hsealed _ _ Hl') as (b' & Hb' & _).
  rewrite (valid_loop_step c i rest s l l' b b' Hl Hl' Hb Hb').
  assert (Hcheck : check_record b b' = None).
  { apply check_record_None. conjs; [exact Hhash | | exact Hzero].
    apply (Hlinked (i - 1)%nat l' l b' b); try assumption.
    now replace (S (i - 1)) with i by lia. }
  rewrite Hcheck. now apply IH.
Qed.

Lemma range1_bounds (n : nat) : Forall (fun i => (1 <= i < n)%nat) (range1 n).
Proof.
  unfold range1. apply Forall_forall. intros i Hi.
  apply list_elem_of_In, in_seq in Hi. lia.
Qed.

Lemma chain_ok_valid (c : Blockchain) (s : State) :
  chain_ok (heap s) (chain c) -> is_chain_valid c s = Ok (true, s).
Proof.
  intros Hok. unfold is_chain_valid.
  apply chain_ok_valid_loop; [exact Hok | apply range1_bounds].
Qed.

(** ** Chains built by the driver *)

(** The driver's run at difficulty 1: a genesis block and two more. *)
Definition demo_requests : list request :=
  [mkRequest (PyFloat "1700000319.25") 1 (Some "Transaction Data #1"%string) 1;
   mkRequest (PyFloat "1700000320.75") 2 (Some "Transaction Data #2"%string) 1].

Definition demo_built : outcome (Blockchain * State) :=
  Eval vm_compute in build 10 (PyFloat "1700000318.5") 1 demo_requests empty_state.

Definition demo_chain : Blockchain :=
  match demo_built with Ok (c, _) => c | _ => mkBlockchain [] 0 end.

Definition demo_state : State :=
  match demo_built with Ok (_, s) => s | _ => empty_state end.

Lemma demo_build_eq :
  build 10 (PyFloat "1700000318.5") 1 demo_requests empty_state
  = Ok (demo_chain, demo_state).
Proof. vm_compute. reflexivity. Qed.

(** The run agrees with what Python's hashlib gives on the same inputs. *)
Example demo_chain_shape :
  chain demo_chain = [0; 1; 2]%nat /\
  map nonce (heap demo_state) = [3; 1; 2] /\
  map hash (heap demo_state) =
    [Some "04b54bb54b5da87d83c2e9b731edd79d0fd5e9b22d95231a3690332c54145a68"%string;
     Some "0eae41d6b2f36d44e695b09d72db6a1479c087c8fc254327f43d095ad3449b02"%string;
     Some "0afd90bb643217ea78ef52ede4eb04c14af2ce5834327c917c933bcd70db601d"%string].
Proof. conjs; reflexivity. Qed.

(** C1: a chain made by [Blockchain(difficulty)] and then any number of
    passes of construct-a-block-and-add-it, with nothing else touching the
    blocks, is valid: [is_chain_valid] returns [True] and prints nothing. *)
Theorem built_chain_is_valid (fuel : nat) (now : pyfloat) (d : Z)
    (rs : list request) (s s' : State) (c : Blockchain) :
  build fuel now d rs s = Ok (c, s') ->
  is_chain_valid c s' = Ok (true, s').
Proof.
  intros H. apply chain_ok_valid. eapply build_chain_ok, H.
Qed.

Lemma built_chain_is_valid_witness :
  build 10 (PyFloat "1700000318.5") 1 demo_requests empty_state
    = Ok (demo_chain, demo_state) /\
  is_chain_valid demo_chain demo_state = Ok (true, demo_state).
Proof.
  split; [exact demo_build_eq |].
  exact (built_chain_is_valid 10 (PyFloat "1700000318.5") 1 demo_requests
           empty_state demo_state demo_chain demo_build_eq).
Defined.



(** ** The walk of the validator *)


(** Position [i] holds blocks [b] (at [i]) and [b'] (at [i - 1]). *)
Definition blocks_at (h : list Block) (c : list loc) (i : nat) (b b' : Block) : Prop :=
  exists l l', c !! i = Some l /\ c !! (i - 1)%nat = Some l' /\
               h !! l = Some b /\ h !! l' = Some b'.

(** The three checks pass at position [i]. *)
Definition passes (h : list Block) (c : list loc) (i : nat) : Prop :=
  exists b b', blocks_at h c i b b' /\
    hash b = Some (compute_hash b) /\
    prev_hash b = hash b' /\
    Py.startswith (compute_hash b) (Py.zeros (difficulty b)) = true.



Lemma valid_loop_at (c : Blockchain) (s : State) (i : nat) (rest : list nat)
    (b b' : Block) :
  blocks_at (heap s) (chain c) i b b' ->
  valid_loop c (i :: rest) s =
    match check_record b b' with
    | Some cat => Ok (false, mkState (heap s) (stdout s ++ [failure_line b cat]))
    | None => valid_loop c rest s
    end.
Proof.
  intros (l & l' & Hl & Hl' & Hb & Hb'). now apply (valid_loop_step c i rest s l l').
Qed.

Lemma passes_check (h : list Block) (c : list loc) (i : nat) :
  passes h c i <-> exists b b', blocks_at h c i b b' /\ check_record b b' = None.
Proof.
  unfold passes. split; intros (b & b' & Hat & H); exists b, b'; split; auto;
    apply check_record_None; exact H.
Qed.

Lemma valid_loop_all_pass (c : Blockchain) (s : State) (indices : list nat) :
  Forall (passes (heap s) (chain c)) indices ->
  valid_loop c indices s = Ok (true, s).
Proof.
  induction indices as [|i rest IH]; intros Hall; [reflexivity |].
  inversion Hall as [|? ? Hi Hrest]; subst.
  apply passes_check in Hi as (b & b' & Hat & Hnone).
  rewrite (valid_loop_at c s i rest b b' Hat), Hnone. now apply IH.
Qed.

(** Fail-fast: once a check fails at [k] the loop returns; what comes after
    [k] in the list of indices is not looked at. *)
Lemma valid_loop_stops (c : Blockchain) (s : State) (pre post : list nat) (k : nat)
    (b b' : Block) (cat : category) :
  Forall (passes (heap s) (chain c)) pre ->
  blocks_at (heap s) (chain c) k b b' ->
  check_record b b' = Some cat ->
  valid_loop c (pre ++ k :: post) s =
    Ok (false, mkState (heap s) (stdout s ++ [failure_line b cat])).
Proof.
  intros Hpre Hat Hfail.
  induction pre as [|i pre IH]; cbn [app].
  - now rewrite (valid_loop_at c s k post b b' Hat), Hfail.
  - inversion Hpre as [|? ? Hi Hrest]; subst.
    apply passes_check in Hi as (bi & bi' & Hati & Hnone).
    rewrite (valid_loop_at c s i _ bi bi' Hati), Hnone. now apply IH.
Qed.

Lemma range1_split (n k : nat) :
  (1 <= k < n)%nat -> range1 n = seq 1 (k - 1) ++ k :: seq (S k) (n - 1 - k).
Proof.
  intros Hk. unfold range1.
  replace (n - 1)%nat with ((k - 1) + S (n - 1 - k))%nat by lia.
  rewrite seq_app. f_equal. cbn [seq].
  replace (1 + (k - 1))%nat with k by lia. f_equal. f_equal. lia.
Qed.

Lemma blocks_at_ext (h : list Block) (c c2 : list loc) (i : nat) (b b' : Block) :
  c2 !! i = c !! i -> c2 !! (i - 1)%nat = c !! (i - 1)%nat ->
  blocks_at h c i b b' -> blocks_at h c2 i b b'.
Proof.
  intros E1 E2 (l & l' & Hl & Hl' & Hb). exists l, l'. rewrite E1, E2. auto.
Qed.

Lemma take_lookup_eq (c c2 : list loc) (k i : nat) :
  take (S k) c2 = take (S k) c -> (i <= k)%nat -> c2 !! i = c !! i.
Proof.
  intros Htake Hi.
  rewrite <- (lookup_take_lt c2 (S k) i) by lia.
  rewrite <- (lookup_take_lt c (S k) i) by lia.
  now rewrite Htake.
Qed.

(** The first failing position decides the result, for every chain that
    agrees up to that position. *)
Lemma is_chain_valid_first_failure (s : State) (c c2 : Blockchain) (k : nat)
    (b b' : Block) (cat : category) :
  (1 <= k < length (chain c))%nat ->
  (forall i, (1 <= i < k)%nat -> passes (heap s) (chain c) i) ->
  blocks_at (heap s) (chain c) k b b' ->
  check_record b b' = Some cat ->
  take (S k) (chain c2) = take (S k) (chain c) ->
  is_chain_valid c2 s = Ok (false, mkState (heap s) (stdout s ++ [failure_line b cat])).
Proof.
  intros Hk Hbefore Hat Hfail Htake.
  assert (Hlen : (k < length (chain c2))%nat).
  { apply (f_equal length) in Htake. rewrite !length_take in Htake. lia. }
  unfold is_chain_valid. rewrite (range1_split (length (chain c2)) k) by lia.
  apply valid_loop_stops with (b' := b').
  - apply Forall_forall. intros i Hi.
    apply list_elem_of_In, in_seq in Hi.
    destruct (Hbefore i ltac:(lia)) as (bi & bi' & Hati & Hrest).
    exists bi, bi'. split; [|exact Hrest].
    eapply blocks_at_ext; [| |exact Hati]; eapply take_lookup_eq; eauto; lia.
  - eapply blocks_at_ext; [| |exact Hat]; eapply take_lookup_eq; eauto; lia.
  - exact Hfail.
Qed.

(** The order of the three checks. *)
Lemma check_record_hash (b b' : Block) :
  check_record b b' = Some hash_mismatch <-> hash b <> Some (compute_hash b).
Proof.
  unfold check_record. change (Digest b) with (compute_hash b).
  destruct (Py.eq_opt (hash b) (Some (compute_hash b))) eqn:Hh; cbn [negb].
  - apply eq_opt_true in Hh.
    destruct (Py.eq_opt (prev_hash b) (hash b')); cbn [negb];
      [destruct (Py.startswith _ _); cbn [negb]|]; split; try discriminate; tauto.
  - apply eq_opt_false in Hh. tauto.
Qed.

Lemma check_record_link (b b' : Block) :
  check_record b b' = Some link_mismatch <->
  hash b = Some (compute_hash b) /\ prev_hash b <> hash b'.
Proof.
  unfold check_record. change (Digest b) with (compute_hash b).
  destruct (Py.eq_opt (hash b) (Some (compute_hash b))) eqn:Hh; cbn [negb].
  - apply eq_opt_true in Hh.
    destruct (Py.eq_opt (prev_hash b) (hash b')) eqn:Hp; cbn [negb].
    + apply eq_opt_true in Hp.
      destruct (Py.startswith _ _); cbn [negb]; split; try discriminate; tauto.
    + apply eq_opt_false in Hp. tauto.
  - apply eq_opt_false in Hh. split; [discriminate | tauto].
Qed.



(** ** The validator *)


(** [block.data = d] from outside the classes, on the object at [l]. *)
Definition set_data (l : loc) (d : option string) : M unit :=
  let* b := read l in
  write l (with_data b d).

Lemma set_data_inv (l : loc) (d : option string) (s s1 : State) (u : unit) :
  set_data l d s = Ok (u, s1) ->
  exists b, heap s !! l = Some b /\
            s1 = mkState (<[l := with_data b d]> (heap s)) (stdout s).
Proof.
  unfold set_data. intros H.
  apply bind_inv in H as (b & s0 & Hr & Hw).
  apply read_inv in Hr as [Hb ->]. apply write_inv in Hw as [_ ->]. eauto.
Qed.

(** The demo chain with the payload of its record 1, or of its record 2,
    overwritten after mining. *)
Definition demo_tampered (l : loc) : State :=
  match set_data l (Some "Transaction Data #9"%string) demo_state with
  | Ok (_, s) => s
  | _ => demo_state
  end.

Definition demo_tampered_1 : State := Eval vm_compute in demo_tampered 1%nat.



Lemma demo_tampered_1_run :
  is_chain_valid demo_chain demo_tampered_1 =
  Ok (false, mkState (heap demo_tampered_1)
                     (stdout demo_tampered_1 ++ ["Block #1 hash mismatch!"%string])).
Proof. vm_compute. reflexivity. Qed.


(** Nothing after the first failing position is read: here the chain goes
    on with addresses that are not in the store. *)
Example demo_fail_fast :
  is_chain_valid (mkBlockchain [0; 1; 99; 1000]%nat 1) demo_tampered_1 =
  Ok (false, mkState (heap demo_tampered_1)
                     (stdout demo_tampered_1 ++ ["Block #1 hash mismatch!"%string])).
Proof. vm_compute. reflexivity. Qed.






(** ** Construction *)

(** C8 as the specification words it: constructing a record with a negative
    difficulty or a null payload fails with an error. *)
Definition construction_validates_inputs : Prop :=
  forall (now : pyfloat) (idx : Z) (dat prev : option string) (d : Z) (s : State),
    d < 0 \/ dat = None ->
    exists e : exn, Block_init now idx dat prev d s = Raise e.

(** C8, counterexample: [Block(1, None, difficulty=-1)] returns a block. *)
Lemma construction_does_not_validate : ~ construction_validates_inputs.
Proof.
  intros H.
  destruct (H (PyFloat "1700000318.5") 1 None default_prev_hash (-1) empty_state)
    as [e He]; [left; lia | discriminate He].
Qed.

(** C8, amended: constructing a record never fails; whatever the difficulty
    (negative too) and the payload (null too), a new object is made that
    stores them as given, with nonce 0 and no hash, and the objects there
    already are untouched. *)
Theorem Block_init_total (now : pyfloat) (idx : Z) (dat prev : option string)
    (d : Z) (s : State) :
  exists (l : loc) (s' : State),
    Block_init now idx dat prev d s = Ok (l, s') /\
    heap s !! l = None /\
    heap s' !! l = Some (mkBlock idx now dat prev 0 d None) /\
    (forall (x : loc) (b : Block), heap s !! x = Some b -> heap s' !! x = Some b) /\
    stdout s' = stdout s.
Proof.
  exists (length (heap s)), (mkState (heap s ++ [mkBlock idx now dat prev 0 d None]) (stdout s)).
  conjs.
  - reflexivity.
  - apply lookup_ge_None. lia.
  - apply lookup_fresh.
  - intros x b Hx. cbn [heap]. rewrite lookup_app_l; [exact Hx |].
    eapply lookup_lt_Some, Hx.
  - reflexivity.
Qed.

(** What such a record does afterwards: a difficulty below 1 asks for the
    empty prefix, so [mine_block] stops at its first attempt, and a null
    payload is hashed as the text [None]. *)
Lemma mine_block_nonpositive_difficulty (fuel : nat) (b : Block) :
  difficulty b <= 0 ->
  exists out, mine_block (S fuel) b = Some (with_hash b (Some (compute_hash b)), out).
Proof.
  intros Hd. unfold mine_block. cbv zeta. rewrite (zeros_nonpos _ Hd).
  cbn [mine_loop]. cbv zeta. cbn [Py.startswith]. eauto.
Qed.

Example block_string_null_payload :
  block_string (mkBlock 1 (PyFloat "2.5") None (Some "ab"%string) 7 (-1) None)
  = "12.5Noneab7"%string.
Proof. reflexivity. Qed.

(** ** Tampering with a payload *)

Lemma chain_at_inv (c : Blockchain) (i : nat) (l : loc) (s s' : State) :
  chain_at c i s = Ok (l, s') -> chain c !! i = Some l /\ s' = s.
Proof.
  unfold chain_at. destruct (chain c !! i); [|discriminate].
  intros H. apply ret_inv in H as [-> ->]. auto.
Qed.

(** A walk that returns [True] found every position passing. *)
Lemma valid_loop_true_inv (c : Blockchain) (s : State) (indices : list nat) :
  forall s', valid_loop c indices s = Ok (true, s') ->
             s' = s /\ Forall (passes (heap s) (chain c)) indices.
Proof.
  induction indices as [|i rest IH]; intros s' H.
  - apply ret_inv in H as [_ ->]. auto.
  - pose proof H as H0. cbn [valid_loop] in H.
    apply bind_inv in H as (l & s1 & Hl & H). apply chain_at_inv in Hl as [Hl ->].
    apply bind_inv in H as (l' & s1 & Hl' & H). apply chain_at_inv in Hl' as [Hl' ->].
    apply bind_inv in H as (b & s1 & Hb & H). apply read_inv in Hb as [Hb ->].
    apply bind_inv in H as (b' & s1 & Hb' & _). apply read_inv in Hb' as [Hb' ->].
    assert (Hat : blocks_at (heap s) (chain c) i b b') by (exists l, l'; auto).
    rewrite (valid_loop_at c s i rest b b' Hat) in H0.
    destruct (check_record b b') as [cat|] eqn:Hcheck; [discriminate |].
    apply IH in H0 as [-> Hrest]. split; [reflexivity |].
    constructor; [|exact Hrest].
    apply passes_check. eauto.
Qed.

Lemma is_chain_valid_true_inv (c : Blockchain) (s s' : State) :
  is_chain_valid c s = Ok (true, s') ->
  s' = s /\ forall i, (1 <= i < length (chain c))%nat -> passes (heap s) (chain c) i.
Proof.
  unfold is_chain_valid. intros H.
  apply valid_loop_true_inv in H as [-> Hall]. split; [reflexivity |].
  intros i Hi. rewrite Forall_forall in Hall. apply Hall.
  unfold range1. apply list_elem_of_In, in_seq. lia.
Qed.

(** The checks at a record read only the hash of the record before it. *)
Lemma check_record_prev (b p1 p2 : Block) :
  hash p1 = hash p2 -> check_record b p1 = check_record b p2.
Proof. unfold check_record. now intros ->. Qed.















Definition demo_block_1 : Block :=
  match heap demo_state !! 1%nat with Some b => b | None => sample_block 1 end.



(** ** The same object added twice

    [add_block] takes a reference.  The chains above are built as the driver
    builds them, a new [Block] for every [add_block]; given an object that
    is in the chain already, [add_block] relinks and mines that one object
    again, and the chain holds it twice. *)
Definition add_same_block_twice : M (Blockchain * bool) :=
  let* c := Blockchain_init 1 (PyFloat "1700000318.5") 0 in
  let* nb := Block_init (PyFloat "1700000319.25") 1 (Some "Transaction Data #1"%string)
                        default_prev_hash 0 in
  let* c := add_block 1 c nb in
  let* c := add_block 1 c nb in
  let* v := is_chain_valid c in
  ret (c, v).

Example add_same_block_twice_run :
  exists s : State,
    add_same_block_twice empty_state = Ok (mkBlockchain [0; 1; 1]%nat 0, false, s) /\
    last (stdout s) = Some "Block #1 prev_hash mismatch!"%string.
Proof. eexists. split; vm_compute; reflexivity. Qed.

(** ** More on the miner *)

Lemma repeat_char_length (c : ascii) (n : nat) :
  String.length (Py.repeat_char c n) = n.
Proof. induction n as [|n IH]; simpl; [reflexivity | now rewrite IH]. Qed.

Lemma startswith_length (s p : string) :
  Py.startswith s p = true -> (String.length p <= String.length s)%nat.
Proof.
  revert s. induction p as [|c p IH]; intros s H; simpl in *; [lia |].
  destruct s as [|d s]; [discriminate |].
  destruct (Ascii.eqb c d); [|discriminate].
  apply IH in H. simpl. lia.
Qed.

(** A target longer than the digest is never met. *)
Lemma target_too_long (b : Block) (d : Z) :
  64 < d -> Py.startswith (compute_hash b) (Py.zeros d) = false.
Proof.
  intros Hd. destruct (Py.startswith (compute_hash b) (Py.zeros d)) eqn:E;
    [|reflexivity].
  apply startswith_length in E.
  unfold Py.zeros in E. rewrite repeat_char_length, compute_hash_length in E. lia.
Qed.

Lemma mine_loop_never (target : string) (fuel : nat) :
  forall b : Block,
    (forall x : Block, Py.startswith (compute_hash x) target = false) ->
    mine_loop fuel target b = None.
Proof.
  induction fuel as [|fuel IH]; intros b Hnever; [reflexivity |].
  cbn [mine_loop]. cbv zeta. rewrite Hnever. now apply IH.
Qed.


(** X2: with a difficulty above 64 [mine_block] never returns: the digest
    has 64 characters, so no digest starts with that many zeros. *)
Theorem mine_block_difficulty_above_64 (b : Block) :
  64 < difficulty b -> forall fuel : nat, mine_block fuel b = None.
Proof.
  intros Hd fuel. unfold mine_block. cbv zeta.
  rewrite mine_loop_never; [reflexivity |].
  intros x. now apply target_too_long.
Qed.

Lemma mine_block_difficulty_above_64_witness :
  64 < difficulty (sample_block 65) /\
  forall fuel : nat, mine_block fuel (sample_block 65) = None.
Proof.
  split; [reflexivity |].
  exact (mine_block_difficulty_above_64 (sample_block 65) eq_refl).
Defined.

Lemma with_hash_same (b : Block) : with_hash b (hash b) = b.
Proof. now destruct b. Qed.

(** X3: mining a block that [mine_block] has just sealed changes nothing:
    the call stops at its first attempt with the same nonce and hash. *)
Theorem mine_block_again (fuel fuel' : nat) (b b' : Block) (out : list string) :
  mine_block fuel b = Some (b', out) ->
  mine_block (S fuel') b' = Some (b', [mining_line b'; mined_line b']).
Proof.
  intros H. apply mine_block_inv in H as (n & _ & -> & _ & Hhit & _).
  set (m := nonce b + Z.of_nat n) in *.
  unfold mine_block. cbv zeta. cbn [mine_loop]. cbv zeta.
  change (difficulty (sealed_at b m)) with (difficulty b).
  change (compute_hash (sealed_at b m)) with (compute_hash (with_nonce b m)).
  rewrite Hhit.
  change (Some (compute_hash (with_nonce b m))) with (hash (sealed_at b m)).
  now rewrite with_hash_same.
Qed.

Lemma mine_block_again_witness :
  mine_block 10 (sample_block 1) = Some (sample_sealed, sample_out) /\
  mine_block 1 sample_sealed
    = Some (sample_sealed, [mining_line sample_sealed; mined_line sample_sealed]).
Proof.
  split; [exact sample_mined_eq |].
  exact (mine_block_again 10 0 (sample_block 1) sample_sealed sample_out sample_mined_eq).
Defined.



(** ** More on the digest *)

Lemma string_app_assoc (a b c : string) :
  ((a ++ b) ++ c)%string = (a ++ (b ++ c))%string.
Proof. induction a as [|x a IH]; simpl; [reflexivity | now rewrite IH]. Qed.

Lemma compute_hash_ext (b1 b2 : Block) :
  block_string b1 = block_string b2 -> compute_hash b1 = compute_hash b2.
Proof. unfold compute_hash. now intros ->. Qed.

(** X5: the digest joins the fields with nothing between them, so it does
    not tell where one field ends: text moved from the end of [data] to the
    front of [prev_hash] gives the same digest. *)
Theorem compute_hash_field_boundary (b : Block) (u v w : string) :
  compute_hash (with_prev_hash (with_data b (Some (u ++ v)%string)) (Some w)) =
  compute_hash (with_prev_hash (with_data b (Some u)) (Some (v ++ w)%string)).
Proof.
  apply compute_hash_ext.
  unfold block_string. cbn [index timestamp data prev_hash nonce with_prev_hash with_data
                            Py.str_opt].
  now rewrite !string_app_assoc.
Qed.

(** ** More on adding *)

(** X6: one pass of construct-and-add puts exactly one new object in the
    store and appends its address to the chain; the objects that were there
    keep all their fields, and the new block carries the index, timestamp,
    payload and difficulty it was constructed with. *)
Theorem add_appends_new_object (fuel : nat) (r : request) (c c' : Blockchain)
    (s s' : State) :
  add fuel r c s = Ok (c', s') ->
  chain c' = chain c ++ [length (heap s)] /\
  chain_difficulty c' = chain_difficulty c /\
  length (heap s') = S (length (heap s)) /\
  (forall (x : loc) (b : Block), heap s !! x = Some b -> heap s' !! x = Some b) /\
  exists b' : Block,
    heap s' !! length (heap s) = Some b' /\
    index b' = req_index r /\ timestamp b' = req_now r /\
    data b' = req_data r /\ difficulty b' = req_difficulty r.
Proof.
  intros H.
  apply add_inv in H as (latest & lb & b' & out & _ & _ & Hmine & -> & ->).
  apply mine_block_inv in Hmine as (n & _ & -> & _).
  cbn [heap append chain chain_difficulty]. conjs.
  - reflexivity.
  - reflexivity.
  - rewrite length_app. cbn. lia.
  - intros x b Hx. rewrite lookup_app_l; [exact Hx | eapply lookup_lt_Some, Hx].
  - eexists. split; [apply lookup_fresh |]. conjs; reflexivity.
Qed.

Definition demo_request_3 : request :=
  mkRequest (PyFloat "1700000321.5") 3 (Some "Transaction Data #3"%string) 0.

Definition demo_added : outcome (Blockchain * State) :=
  Eval vm_compute in add 1 demo_request_3 demo_chain demo_state.

Definition demo_chain_4 : Blockchain :=
  match demo_added with Ok (c, _) => c | _ => demo_chain end.

Definition demo_state_4 : State :=
  match demo_added with Ok (_, s) => s | _ => demo_state end.

Lemma demo_added_eq :
  add 1 demo_request_3 demo_chain demo_state = Ok (demo_chain_4, demo_state_4).
Proof. vm_compute. reflexivity. Qed.

Lemma add_appends_new_object_witness :
  chain demo_chain_4 = chain demo_chain ++ [length (heap demo_state)] /\
  chain_difficulty demo_chain_4 = chain_difficulty demo_chain /\
  length (heap demo_state_4) = S (length (heap demo_state)) /\
  (forall (x : loc) (b : Block),
     heap demo_state !! x = Some b -> heap demo_state_4 !! x = Some b) /\
  exists b' : Block,
    heap demo_state_4 !! length (heap demo_state) = Some b' /\
    index b' = req_index demo_request_3 /\ timestamp b' = req_now demo_request_3 /\
    data b' = req_data demo_request_3 /\ difficulty b' = req_difficulty demo_request_3.
Proof.
  exact (add_appends_new_object 1 demo_request_3 demo_chain demo_chain_4
           demo_state demo_state_4 demo_added_eq).
Defined.

(** X7: [add_block] overwrites the [prev_hash] a block was constructed
    with: whatever value the constructor was given, adding the new block
    gives the same chain, store and output. *)
Theorem add_block_overrides_prev_hash (fuel : nat) (now : pyfloat) (idx : Z)
    (dat p : option string) (d : Z) (c : Blockchain) (s : State) :
  (let* nb := Block_init now idx dat p d in add_block fuel c nb) s =
  add fuel (mkRequest now idx dat d) c s.
Proof.
  unfold add, Block_init, add_block, get_latest_block.
  cbn [req_now req_index req_data req_difficulty].
  destruct (last (chain c)) as [latest|]; [|reflexivity].
  unfold bind, alloc, ret, read, write, loc in *. cbn [heap stdout].
  destruct (decide (latest < length (heap s))%nat) as [Hlt|Hge].
  - rewrite !lookup_app_l by lia.
    destruct (heap s !! latest) as [lb|]; [|reflexivity].
    cbn [heap stdout]. rewrite !lookup_fresh. cbn [heap stdout].
    rewrite !lookup_fresh, !insert_fresh. reflexivity.
  - destruct (decide (latest = length (heap s))) as [->|Hne].
    + rewrite !lookup_fresh. cbn [heap stdout]. rewrite !lookup_fresh.
      cbn [heap stdout]. rewrite !lookup_fresh, !insert_fresh. reflexivity.
    + rewrite !(lookup_ge_None_2 _ latest); [reflexivity | |];
        rewrite length_app; cbn; lia.
Qed.

(** ** More on the validator *)




(** [block.prev_hash = p] and [block.difficulty = d] from outside the
    classes, on the object at [l]. *)
Definition set_prev_hash (l : loc) (p : option string) : M unit :=
  let* b := read l in
  write l (with_prev_hash b p).


Lemma set_prev_hash_inv (l : loc) (p : option string) (s s1 : State) (u : unit) :
  set_prev_hash l p s = Ok (u, s1) ->
  exists b, heap s !! l = Some b /\
            s1 = mkState (<[l := with_prev_hash b p]> (heap s)) (stdout s).
Proof.
  unfold set_prev_hash. intros H.
  apply bind_inv in H as (b & s0 & Hr & Hw).
  apply read_inv in Hr as [Hb ->]. apply write_inv in Hw as [_ ->]. eauto.
Qed.


(** The store after the object at [l] is replaced by [bt]. *)
Lemma replaced_lookup (h : list Block) (l x : loc) (b bt bx : Block) :
  h !! l = Some b -> h !! x = Some bx ->
  <[l := bt]> h !! x = Some (if decide (x = l) then bt else bx).
Proof.
  intros Hl Hx. destruct (decide (x = l)) as [->|Hne].
  - apply list_lookup_insert_eq. eapply lookup_lt_Some, Hl.
  - now rewrite list_lookup_insert_ne by congruence.
Qed.

Lemma blocks_at_replaced (h : list Block) (c : list loc) (l : loc) (b bt : Block)
    (i : nat) (li li' : loc) (bi bi' : Block) :
  h !! l = Some b ->
  c !! i = Some li -> c !! (i - 1)%nat = Some li' ->
  h !! li = Some bi -> h !! li' = Some bi' ->
  blocks_at (<[l := bt]> h) c i (if decide (li = l) then bt else bi)
                                (if decide (li' = l) then bt else bi').
Proof.
  intros Hl Hi Hi' Hbi Hbi'. exists li, li'.
  conjs; auto; eapply replaced_lookup; eauto.
Qed.

(** A replacement that keeps the hash and fails a check is caught at the
    first position, from 1 on, that holds the object. *)
Lemma valid_loop_replaced (c : Blockchain) (s : State) (l : loc) (b bt : Block)
    (cat : category) (indices : list nat) :
  heap s !! l = Some b ->
  hash bt = hash b ->
  (forall p : Block, prev_hash b = hash p -> check_record bt p = Some cat) ->
  Forall (passes (heap s) (chain c)) indices ->
  Exists (fun i => chain c !! i = Some l) indices ->
  valid_loop c indices (mkState (<[l := bt]> (heap s)) (stdout s)) =
  Ok (false, mkState (<[l := bt]> (heap s)) (stdout s ++ [failure_line bt cat])).
Proof.
  intros Hl Hhash Hfail.
  induction indices as [|i rest IH]; intros Hpass Hex; [inversion Hex |].
  inversion Hpass as [|? ? Hi Hrest]; subst.
  destruct Hi as (bi & bi' & (li & li' & Hli & Hli' & Hbi & Hbi') & Hh & Hlink & Hzero).
  pose proof (blocks_at_replaced _ _ l b bt i li li' bi bi' Hl Hli Hli' Hbi Hbi') as Hat.
  rewrite (valid_loop_at c (mkState (<[l := bt]> (heap s)) (stdout s)) i rest _ _ Hat).
  cbn [heap stdout].
  assert (Hprev : hash (if decide (li' = l) then bt else bi') = hash bi').
  { destruct (decide (li' = l)) as [->|]; [|reflexivity].
    rewrite Hl in Hbi'. injection Hbi' as <-. exact Hhash. }
  destruct (decide (li = l)) as [->|Hne].
  - rewrite Hl in Hbi. injection Hbi as <-.
    rewrite (Hfail _ (eq_trans Hlink (eq_sym Hprev))). reflexivity.
  - rewrite (check_record_prev bi _ bi' Hprev).
    assert (Hnone : check_record bi bi' = None) by (apply check_record_None; auto).
    rewrite Hnone. apply IH; [exact Hrest |].
    inversion Hex as [? ? Hhere|? ? Hthere]; subst; [congruence | exact Hthere].
Qed.

(** A replacement that keeps the hash, and passes wherever the old object
    passed, leaves a valid chain valid. *)
Lemma valid_loop_still_valid (c : Blockchain) (s : State) (l : loc) (b bt : Block)
    (indices : list nat) :
  heap s !! l = Some b ->
  hash bt = hash b ->
  Forall (fun i => passes (heap s) (chain c) i /\
                   (chain c !! i = Some l ->
                    forall p, check_record b p = None -> check_record bt p = None))
         indices ->
  valid_loop c indices (mkState (<[l := bt]> (heap s)) (stdout s)) =
  Ok (true, mkState (<[l := bt]> (heap s)) (stdout s)).
Proof.
  intros Hl Hhash Hall. apply valid_loop_all_pass. cbn [heap].
  eapply Forall_impl; [exact Hall |]. cbn beta.
  intros i [(bi & bi' & (li & li' & Hli & Hli' & Hbi & Hbi') & Hh & Hlink & Hzero) Hkeep].
  apply passes_check.
  pose proof (blocks_at_replaced _ _ l b bt i li li' bi bi' Hl Hli Hli' Hbi Hbi') as Hat.
  eexists _, _. split; [exact Hat |].
  assert (Hprev : hash (if decide (li' = l) then bt else bi') = hash bi').
  { destruct (decide (li' = l)) as [->|]; [|reflexivity].
    rewrite Hl in Hbi'. injection Hbi' as <-. exact Hhash. }
  assert (Hnone : check_record bi bi' = None) by (apply check_record_None; auto).
  rewrite (check_record_prev _ _ bi' Hprev).
  destruct (decide (li = l)) as [->|Hne]; [|exact Hnone].
  rewrite Hl in Hbi. injection Hbi as <-. now apply Hkeep.
Qed.

Lemma range1_Forall (n : nat) (P : nat -> Prop) :
  (forall i, (1 <= i < n)%nat -> P i) -> Forall P (range1 n).
Proof.
  intros H. eapply Forall_impl; [apply range1_bounds |]. exact H.
Qed.

Lemma range1_Exists (n k : nat) (P : nat -> Prop) :
  (1 <= k < n)%nat -> P k -> Exists P (range1 n).
Proof.
  intros Hk HP. apply Exists_exists. exists k. split; [|exact HP].
  unfold range1. apply list_elem_of_In, in_seq. lia.
Qed.


(** The demo chain holds each address once. *)
Lemma demo_chain_lookup (i : nat) (l : loc) :
  chain demo_chain !! i = Some l -> l = i /\ (i < 3)%nat.
Proof.
  change (chain demo_chain) with [0; 1; 2]%nat.
  destruct i as [|[|[|i]]]; cbn; intros [= <-]; lia.
Qed.

Lemma demo_valid : is_chain_valid demo_chain demo_state = Ok (true, demo_state).
Proof. exact (chain_ok_valid _ _ (build_chain_ok _ _ _ _ _ _ _ demo_build_eq)). Qed.

(** X9: the genesis record is outside the walk: overwriting the payload of
    the first record of a valid chain (an object the chain holds nowhere
    else) leaves [is_chain_valid] returning [True]. *)
Theorem genesis_payload_unchecked (s s1 : State) (c : Blockchain) (g : loc)
    (d : option string) :
  is_chain_valid c s = Ok (true, s) ->
  chain c !! 0%nat = Some g ->
  (forall i : nat, (1 <= i)%nat -> chain c !! i <> Some g) ->
  set_data g d s = Ok (tt, s1) ->
  is_chain_valid c s1 = Ok (true, s1).
Proof.
  intros Hvalid _ Honly Hset.
  apply set_data_inv in Hset as (b & Hb & ->).
  apply is_chain_valid_true_inv in Hvalid as [_ Hpass].
  unfold is_chain_valid. cbn [heap stdout].
  apply valid_loop_still_valid with (b := b); [exact Hb | reflexivity |].
  apply range1_Forall. intros i Hi. split; [now apply Hpass |].
  intros Hg. exfalso. apply (Honly i); [lia | exact Hg].
Qed.

Definition demo_tampered_0 : State :=
  Eval vm_compute in
    match set_data 0%nat (Some "Genesis Block 2"%string) demo_state with
    | Ok (_, s) => s
    | _ => demo_state
    end.

Lemma genesis_payload_unchecked_witness :
  is_chain_valid demo_chain demo_tampered_0 = Ok (true, demo_tampered_0).
Proof.
  refine (genesis_payload_unchecked demo_state demo_tampered_0 demo_chain 0%nat
            (Some "Genesis Block 2"%string) demo_valid eq_refl _ eq_refl).
  intros i Hi Hl. apply demo_chain_lookup in Hl. lia.
Defined.








(** X12: overwriting [prev_hash] of the record at a position [k >= 1] of a
    valid chain, without mining again, so that the recomputed digest differs
    from the stored hash, is reported as a hash mismatch, not as a
    [prev_hash] mismatch: the digest is compared first. *)
Theorem tampered_prev_hash_detected (s s1 : State) (c : Blockchain) (k : nat)
    (l : loc) (b : Block) (p : option string) :
  is_chain_valid c s = Ok (true, s) ->
  (1 <= k)%nat ->
  chain c !! k = Some l ->
  heap s !! l = Some b ->
  compute_hash (with_prev_hash b p) <> compute_hash b ->
  set_prev_hash l p s = Ok (tt, s1) ->
  is_chain_valid c s1 =
    Ok (false, mkState (heap s1) (stdout s1 ++ [hash_mismatch_line b])).
Proof.
  intros Hvalid Hk Hl Hb Hdiff Hset.
  apply set_prev_hash_inv in Hset as (b0 & Hb0 & ->).
  rewrite Hb in Hb0. injection Hb0 as <-.
  apply is_chain_valid_true_inv in Hvalid as [_ Hpass].
  assert (Hkn : (1 <= k < length (chain c))%nat)
    by (split; [exact Hk | eapply lookup_lt_Some, Hl]).
  destruct (Hpass k Hkn) as (bk & bk' & (lk & lk' & Hlk & _ & Hbk & _) & Hh & _).
  rewrite Hl in Hlk. injection Hlk as <-. rewrite Hb in Hbk. injection Hbk as <-.
  unfold is_chain_valid. cbn [heap stdout].
  apply (valid_loop_replaced c s l b (with_prev_hash b p) hash_mismatch);
    [exact Hb | reflexivity | | now apply range1_Forall
    | now apply (range1_Exists _ k)].
  intros q _. apply check_record_hash. cbn [hash with_prev_hash].
  rewrite Hh. congruence.
Qed.

Lemma demo_block_1_relinked_differs :
  compute_hash (with_prev_hash demo_block_1 (Some "26"%string))
  <> compute_hash demo_block_1.
Proof. vm_compute. discriminate. Qed.

Definition demo_relinked_1 : State :=
  Eval vm_compute in
    match set_prev_hash 1%nat (Some "26"%string) demo_state with
    | Ok (_, s) => s
    | _ => demo_state
    end.

Lemma tampered_prev_hash_detected_witness :
  is_chain_valid demo_chain demo_relinked_1 =
    Ok (false, mkState (heap demo_relinked_1)
                       (stdout demo_relinked_1 ++ [hash_mismatch_line demo_block_1])).
Proof.
  exact (tampered_prev_hash_detected demo_state demo_relinked_1 demo_chain 1%nat 1%nat
           demo_block_1 (Some "26"%string) demo_valid (le_n 1) eq_refl eq_refl
           demo_block_1_relinked_differs eq_refl).
Defined.

(** ** Tampering, then mining again *)

(** [block.field = value] on the object at [l], for the field [f] sets. *)
Definition update (l : loc) (f : Block -> Block) : M unit :=
  let* b := read l in
  write l (f b).

(** [b.prev_hash = p; b.mine_block()] and [b.data = d; b.mine_block()]. *)
Definition relink_and_mine (fuel : nat) (l : loc) (p : option string) : M unit :=
  run set_prev_hash l p then mine_block_at fuel l.

Definition rewrite_and_mine (fuel : nat) (l : loc) (d : option string) : M unit :=
  run set_data l d then mine_block_at fuel l.

Lemma update_then_mine_inv (fuel : nat) (l : loc) (f : Block -> Block)
    (s s2 : State) (u : unit) :
  (run update l f then mine_block_at fuel l) s = Ok (u, s2) ->
  exists b bt out,
    heap s !! l = Some b /\
    mine_block fuel (f b) = Some (bt, out) /\
    s2 = mkState (<[l := bt]> (heap s)) (stdout s ++ out).
Proof.
  intros H. apply bind_inv in H as (u1 & s1 & Hup & Hmine).
  unfold update in Hup. apply bind_inv in Hup as (b & s0 & Hr & Hw).
  apply read_inv in Hr as [Hb ->]. apply write_inv in Hw as [Hlt ->].
  apply mine_block_at_inv in Hmine as (b1 & bt & out & Hb1 & Hm & ->).
  cbn [heap stdout] in *.
  rewrite list_lookup_insert_eq in Hb1 by exact Hlt. injection Hb1 as <-.
  exists b, bt, out. now rewrite list_insert_insert_eq.
Qed.

(** A position whose record and predecessor are other objects is not
    affected by a replacement. *)
Lemma passes_untouched (h : list Block) (c : list loc) (l : loc) (b bt : Block)
    (i : nat) :
  h !! l = Some b ->
  c !! i <> Some l -> c !! (i - 1)%nat <> Some l ->
  passes h c i -> passes (<[l := bt]> h) c i.
Proof.
  intros Hl Hi Hi' (bi & bi' & (li & li' & Hli & Hli' & Hbi & Hbi') & Hrest).
  exists bi, bi'. split; [|exact Hrest].
  pose proof (blocks_at_replaced h c l b bt i li li' bi bi' Hl Hli Hli' Hbi Hbi') as Hat.
  destruct (decide (li = l)) as [->|]; [congruence |].
  destruct (decide (li' = l)) as [->|]; [congruence | exact Hat].
Qed.

(** X13: giving the record at a position [k >= 1] of a valid chain (an
    object the chain does not hold before [k]) a [prev_hash] other than the
    hash of the record before it, and mining it again, passes the digest
    comparison and is reported as a [prev_hash] mismatch at that record. *)
Theorem relinked_block_detected (fuel : nat) (s s2 : State) (c : Blockchain)
    (k : nat) (l lp : loc) (b pb : Block) (p : option string) :
  is_chain_valid c s = Ok (true, s) ->
  (1 <= k)%nat ->
  chain c !! k = Some l ->
  (forall i : nat, (i < k)%nat -> chain c !! i <> Some l) ->
  heap s !! l = Some b ->
  chain c !! (k - 1)%nat = Some lp ->
  heap s !! lp = Some pb ->
  p <> hash pb ->
  relink_and_mine fuel l p s = Ok (tt, s2) ->
  is_chain_valid c s2 =
    Ok (false, mkState (heap s2) (stdout s2 ++ [prev_hash_mismatch_line b])).
Proof.
  intros Hvalid Hk Hl Hfirst Hb Hlp Hpb Hp Hrun.
  apply (update_then_mine_inv fuel l (fun x => with_prev_hash x p)) in Hrun
    as (b0 & bt & out & Hb0 & Hmine & ->).
  rewrite Hb in Hb0. injection Hb0 as <-.
  apply is_chain_valid_true_inv in Hvalid as [_ Hpass].
  assert (Hkn : (1 <= k < length (chain c))%nat)
    by (split; [exact Hk | eapply lookup_lt_Some, Hl]).
  pose proof (mine_block_inv _ _ _ _ Hmine) as (n & _ & Hbt & _).
  apply mine_block_sealed in Hmine as [[Hsealed _] Hprev].
  assert (Hidx : prev_hash_mismatch_line bt = prev_hash_mismatch_line b)
    by (rewrite Hbt; reflexivity).
  rewrite <- Hidx.
  apply (is_chain_valid_first_failure
           (mkState (<[l := bt]> (heap s)) (stdout s ++ out)) c c k bt pb link_mismatch);
    [exact Hkn | | | | reflexivity].
  - intros i Hi. cbn [heap]. apply passes_untouched with (b := b);
      [exact Hb | apply Hfirst; lia | apply Hfirst; lia | apply Hpass; lia].
  - cbn [heap]. exists l, lp. conjs; [exact Hl | exact Hlp | |].
    + apply list_lookup_insert_eq. eapply lookup_lt_Some, Hb.
    + rewrite list_lookup_insert_ne; [exact Hpb |].
      intros ->. apply (Hfirst (k - 1)%nat); [lia | exact Hlp].
  - apply check_record_link. split; [exact Hsealed |].
    rewrite Hprev. exact Hp.
Qed.

(** X14: the last record of a valid chain (an object the chain holds nowhere
    else) can be given another payload and mined again: the chain is valid
    as before. *)
Theorem remined_last_block_accepted (fuel : nat) (s s2 : State) (c : Blockchain)
    (l : loc) (d : option string) :
  is_chain_valid c s = Ok (true, s) ->
  last (chain c) = Some l ->
  (forall i : nat, (S i < length (chain c))%nat -> chain c !! i <> Some l) ->
  rewrite_and_mine fuel l d s = Ok (tt, s2) ->
  is_chain_valid c s2 = Ok (true, s2).
Proof.
  intros Hvalid Hlast Honly Hrun.
  apply (update_then_mine_inv fuel l (fun x => with_data x d)) in Hrun
    as (b & bt & out & Hb & Hmine & ->).
  apply is_chain_valid_true_inv in Hvalid as [_ Hpass].
  apply mine_block_sealed in Hmine as [[Hsealed Hzero] Hprev].
  unfold is_chain_valid. apply valid_loop_all_pass. cbn [heap].
  apply range1_Forall. intros i Hi.
  destruct (decide (S i < length (chain c))%nat) as [Hlt|Hge].
  - apply passes_untouched with (b := b);
      [exact Hb | apply Honly; lia | apply Honly; lia | now apply Hpass].
  - assert (Hil : chain c !! i = Some l).
    { rewrite last_lookup in Hlast.
      now replace (pred (length (chain c))) with i in Hlast by lia. }
    destruct (Hpass i Hi) as (bi & bi' & (li & li' & Hli & Hli' & Hbi & Hbi') & Hh & Hlink & _).
    rewrite Hil in Hli. injection Hli as <-. rewrite Hb in Hbi. injection Hbi as <-.
    exists bt, bi'. split.
    + exists l, li'. conjs; [exact Hil | exact Hli' | |].
      * apply list_lookup_insert_eq. eapply lookup_lt_Some, Hb.
      * rewrite list_lookup_insert_ne; [exact Hbi' |].
        intros ->. apply (Honly (i - 1)%nat); [lia | exact Hli'].
    + conjs; [exact Hsealed | | exact Hzero]. rewrite Hprev. exact Hlink.
Qed.

(** X15: mining a tampered record again moves the failure to its
    successor: when the record at position [k] of a valid chain (an object
    the chain holds nowhere else) gets another payload and is mined again,
    and its hash changes, [is_chain_valid] reports a [prev_hash] mismatch at
    the record at position [k + 1]. *)
Theorem remined_block_breaks_successor (fuel : nat) (s s2 : State) (c : Blockchain)
    (k : nat) (l ln : loc) (b bn bt : Block) (d : option string) :
  is_chain_valid c s = Ok (true, s) ->
  chain c !! k = Some l ->
  (forall i : nat, i <> k -> chain c !! i <> Some l) ->
  heap s !! l = Some b ->
  chain c !! S k = Some ln ->
  heap s !! ln = Some bn ->
  rewrite_and_mine fuel l d s = Ok (tt, s2) ->
  heap s2 !! l = Some bt ->
  hash bt <> hash b ->
  is_chain_valid c s2 =
    Ok (false, mkState (heap s2) (stdout s2 ++ [prev_hash_mismatch_line bn])).
Proof.
  intros Hvalid Hl Honly Hb Hln Hbn Hrun Hbt Hnew.
  apply (update_then_mine_inv fuel l (fun x => with_data x d)) in Hrun
    as (b0 & bt0 & out & Hb0 & Hmine & ->).
  rewrite Hb in Hb0. injection Hb0 as <-.
  cbn [heap] in Hbt.
  rewrite list_lookup_insert_eq in Hbt by (eapply lookup_lt_Some, Hb).
  injection Hbt as ->.
  apply is_chain_valid_true_inv in Hvalid as [_ Hpass].
  apply mine_block_sealed in Hmine as [[Hsealed Hzero] Hprev].
  assert (Hkn : (1 <= S k < length (chain c))%nat)
    by (split; [lia | eapply lookup_lt_Some, Hln]).
  assert (Hne : ln <> l).
  { intros ->. apply (Honly (S k)); [lia | exact Hln]. }
  destruct (Hpass (S k) Hkn)
    as (bi & bi' & (li & li' & Hli & Hli' & Hbi & Hbi') & Hh & Hlink & _).
  replace (S k - 1)%nat with k in Hli' by lia.
  rewrite Hln in Hli. injection Hli as <-. rewrite Hbn in Hbi. injection Hbi as <-.
  rewrite Hl in Hli'. injection Hli' as <-. rewrite Hb in Hbi'. injection Hbi' as <-.
  apply (is_chain_valid_first_failure
           (mkState (<[l := bt]> (heap s)) (stdout s ++ out)) c c (S k) bn bt
           link_mismatch); [exact Hkn | | | | reflexivity].
  - intros i Hi. cbn [heap].
    destruct (decide (i = k)) as [->|Hik].
    + destruct (Hpass k ltac:(lia))
        as (bk & bk' & (lk & lk' & Hlk & Hlk' & Hbk & Hbk') & _ & Hlinkk & _).
      rewrite Hl in Hlk. injection Hlk as <-. rewrite Hb in Hbk. injection Hbk as <-.
      exists bt, bk'. split.
      * exists l, lk'. conjs; [exact Hl | exact Hlk' | |].
        -- apply list_lookup_insert_eq. eapply lookup_lt_Some, Hb.
        -- rewrite list_lookup_insert_ne; [exact Hbk' |].
           intros ->. apply (Honly (k - 1)%nat); [lia | exact Hlk'].
      * conjs; [exact Hsealed | | exact Hzero]. rewrite Hprev. exact Hlinkk.
    + apply passes_untouched with (b := b);
        [exact Hb | apply Honly; lia | apply Honly; lia | apply Hpass; lia].
  - cbn [heap]. exists ln, l. replace (S k - 1)%nat with k by lia.
    conjs; [exact Hln | exact Hl | |].
    + rewrite list_lookup_insert_ne by congruence. exact Hbn.
    + apply list_lookup_insert_eq. eapply lookup_lt_Some, Hb.
  - apply check_record_link. split; [exact Hh |]. rewrite Hlink. congruence.
Qed.

Definition demo_block_0 : Block :=
  match heap demo_state !! 0%nat with Some b => b | None => sample_block 1 end.

Definition demo_block_2 : Block :=
  match heap demo_state !! 2%nat with Some b => b | None => sample_block 1 end.

Definition state_of (r : outcome (unit * State)) : State :=
  match r with Ok (_, s) => s | _ => demo_state end.

Definition demo_relinked_mined : State :=
  Eval vm_compute in state_of (relink_and_mine 5 1%nat (Some "26"%string) demo_state).

Lemma demo_relinked_mined_eq :
  relink_and_mine 5 1%nat (Some "26"%string) demo_state = Ok (tt, demo_relinked_mined).
Proof. vm_compute. reflexivity. Qed.

Lemma relinked_block_detected_witness :
  is_chain_valid demo_chain demo_relinked_mined =
    Ok (false, mkState (heap demo_relinked_mined)
                       (stdout demo_relinked_mined ++ [prev_hash_mismatch_line demo_block_1])).
Proof.
  refine (relinked_block_detected 5 demo_state demo_relinked_mined demo_chain 1%nat
            1%nat 0%nat demo_block_1 demo_block_0 (Some "26"%string)
            demo_valid (le_n 1) eq_refl _ eq_refl eq_refl eq_refl _
            demo_relinked_mined_eq).
  - intros i Hi Hl. apply demo_chain_lookup in Hl. lia.
  - discriminate.
Defined.

Definition demo_remined_last : State :=
  Eval vm_compute in
    state_of (rewrite_and_mine 5 2%nat (Some "Transaction Data #11"%string) demo_state).

Lemma demo_remined_last_eq :
  rewrite_and_mine 5 2%nat (Some "Transaction Data #11"%string) demo_state
  = Ok (tt, demo_remined_last).
Proof. vm_compute. reflexivity. Qed.

Example demo_remined_last_nonce :
  option_map nonce (heap demo_remined_last !! 2%nat) = Some 3 /\
  option_map nonce (heap demo_state !! 2%nat) = Some 2.
Proof. split; reflexivity. Qed.

Lemma remined_last_block_accepted_witness :
  is_chain_valid demo_chain demo_remined_last = Ok (true, demo_remined_last).
Proof.
  refine (remined_last_block_accepted 5 demo_state demo_remined_last demo_chain 2%nat
            (Some "Transaction Data #11"%string) demo_valid eq_refl _
            demo_remined_last_eq).
  intros i Hi Hl. apply demo_chain_lookup in Hl.
  change (length (chain demo_chain)) with 3%nat in Hi. lia.
Defined.

Definition demo_remined_1 : State :=
  Eval vm_compute in
    state_of (rewrite_and_mine 5 1%nat (Some "Transaction Data #9"%string) demo_state).

Lemma demo_remined_1_eq :
  rewrite_and_mine 5 1%nat (Some "Transaction Data #9"%string) demo_state
  = Ok (tt, demo_remined_1).
Proof. vm_compute. reflexivity. Qed.

Definition demo_remined_block_1 : Block :=
  match heap demo_remined_1 !! 1%nat with Some b => b | None => sample_block 1 end.

Lemma remined_block_breaks_successor_witness :
  is_chain_valid demo_chain demo_remined_1 =
    Ok (false, mkState (heap demo_remined_1)
                       (stdout demo_remined_1 ++ [prev_hash_mismatch_line demo_block_2])).
Proof.
  refine (remined_block_breaks_successor 5 demo_state demo_remined_1 demo_chain 1%nat
            1%nat 2%nat demo_block_1 demo_block_2 demo_remined_block_1
            (Some "Transaction Data #9"%string)
            demo_valid eq_refl _ eq_refl eq_refl eq_refl demo_remined_1_eq eq_refl _).
  - intros i Hi Hl. apply demo_chain_lookup in Hl. lia.
  - discriminate.
Defined.

(** ** The driver *)

Definition simulate_header : string :=
  String "010"%char "=== Simulating distributed verification ===".
Definition confirm_line : string := "All nodes confirm: The chain is valid!".
Definition inconsistency_line : string :=
  "Some node found an inconsistency: The chain is invalid!".

Definition simulate_distributed_verification (chain : Blockchain) : M unit :=
  run print simulate_header then
  let* valid := is_chain_valid chain in
  if valid then print confirm_line else print inconsistency_line.

Definition adding_line (i : Z) (data : string) : string :=
  String "010"%char
    ("Adding Block #" ++ Py.str_int i ++ " with data: '" ++ data ++ "'")%string.

(** The [for i, data in enumerate(block_data_list, start=i)] loop of [main];
    [clock i] is what [time.time()] returns when block [i] is constructed. *)
Fixpoint add_blocks (fuel : nat) (clock : Z -> pyfloat) (difficulty : Z) (i : Z)
    (block_data_list : list string) (my_chain : Blockchain) : M Blockchain :=
  match block_data_list with
  | [] => ret my_chain
  | data :: rest =>
      run print (adding_line i data) then
      let* new_block := Block_init (clock i) i (Some data) default_prev_hash difficulty in
      let* my_chain := add_block fuel my_chain new_block in
      add_blocks fuel clock difficulty (i + 1) rest my_chain
  end.

(** The body of [main], for any difficulty and list of payloads. *)
Definition driver (fuel : nat) (clock : Z -> pyfloat) (difficulty : Z)
    (block_data_list : list string) : M unit :=
  let* my_chain := Blockchain_init fuel (clock 0) difficulty in
  let* my_chain := add_blocks fuel clock difficulty 1 block_data_list my_chain in
  simulate_distributed_verification my_chain.

Definition main (fuel : nat) (clock : Z -> pyfloat) : M unit :=
  driver fuel clock 5
    ["Transaction Data #1"; "Transaction Data #2"; "Transaction Data #3"]%string.

(** What the validator does is the same whatever has been printed before. *)
Lemma valid_loop_stdout (c : Blockchain) (h : list Block) (indices : list nat) :
  forall (o1 o2 : list string) (v : bool) (s1 : State),
    valid_loop c indices (mkState h o1) = Ok (v, s1) ->
    exists printed,
      s1 = mkState h (o1 ++ printed) /\
      valid_loop c indices (mkState h o2) = Ok (v, mkState h (o2 ++ printed)).
Proof.
  induction indices as [|i rest IH]; intros o1 o2 v s1 H.
  - apply ret_inv in H as [-> ->]. exists []. now rewrite !app_nil_r.
  - pose proof H as H0. cbn [valid_loop] in H.
    apply bind_inv in H as (l & sa & Hl & H). apply chain_at_inv in Hl as [Hl ->].
    apply bind_inv in H as (l' & sa & Hl' & H). apply chain_at_inv in Hl' as [Hl' ->].
    apply bind_inv in H as (b & sa & Hb & H). apply read_inv in Hb as [Hb ->].
    apply bind_inv in H as (b' & sa & Hb' & _). apply read_inv in Hb' as [Hb' ->].
    cbn [heap] in Hb, Hb'.
    rewrite (valid_loop_step c i rest (mkState h o1) l l' b b' Hl Hl' Hb Hb') in H0.
    rewrite (valid_loop_step c i rest (mkState h o2) l l' b b' Hl Hl' Hb Hb').
    destruct (check_record b b') as [cat|]; [|now apply IH].
    cbn [heap stdout] in *. injection H0 as <- <-. eauto.
Qed.

(** X16: [simulate_distributed_verification] prints its heading, then what
    [is_chain_valid] prints, then one closing line that follows the verdict:
    the confirmation when the validator returns [True], the inconsistency
    notice when it returns [False]; it changes no block. *)
Theorem simulate_reports_verdict (c : Blockchain) (s s' : State) (v : bool) :
  is_chain_valid c s = Ok (v, s') ->
  exists printed : list string,
    stdout s' = stdout s ++ printed /\
    simulate_distributed_verification c s =
      Ok (tt, mkState (heap s)
                      (stdout s ++ [simulate_header] ++ printed ++
                       [if v then confirm_line else inconsistency_line])).
Proof.
  intros H. destruct s as [h o]. unfold is_chain_valid in H.
  destruct (valid_loop_stdout c h _ o (o ++ [simulate_header]) v s' H)
    as (printed & -> & Hrun).
  exists printed. split; [reflexivity |].
  unfold simulate_distributed_verification, bind, print. cbn [heap stdout].
  unfold is_chain_valid. rewrite Hrun. cbn [heap stdout].
  destruct v; cbn [heap stdout]; now rewrite <- !app_assoc.
Qed.

Lemma simulate_reports_verdict_witness :
  exists printed : list string,
    stdout (mkState (heap demo_tampered_1)
                    (stdout demo_tampered_1 ++ ["Block #1 hash mismatch!"%string]))
      = stdout demo_tampered_1 ++ printed /\
    simulate_distributed_verification demo_chain demo_tampered_1 =
      Ok (tt, mkState (heap demo_tampered_1)
                      (stdout demo_tampered_1 ++ [simulate_header] ++ printed ++
                       [if false then confirm_line else inconsistency_line])).
Proof.
  exact (simulate_reports_verdict demo_chain demo_tampered_1 _ false
           demo_tampered_1_run).
Defined.

Lemma simulate_confirms (c : Blockchain) (s : State) :
  chain_ok (heap s) (chain c) ->
  simulate_distributed_verification c s =
    Ok (tt, mkState (heap s) (stdout s ++ [simulate_header; confirm_line])).
Proof.
  intros Hok. apply chain_ok_valid in Hok.
  destruct s as [h o]. unfold is_chain_valid in Hok.
  destruct (valid_loop_stdout c h _ o (o ++ [simulate_header]) true _ Hok)
    as (printed & Heq & Hrun).
  injection Heq as Heq.
  assert (printed = []) as ->.
  { apply (app_inv_head o). now rewrite app_nil_r. }
  unfold simulate_distributed_verification, bind, print. cbn [heap stdout].
  unfold is_chain_valid. rewrite Hrun. cbn [heap stdout].
  now rewrite app_nil_r, <- app_assoc.
Qed.

Lemma add_blocks_inv (fuel : nat) (clock : Z -> pyfloat) (d : Z)
    (block_data_list : list string) :
  forall (i : Z) (c c' : Blockchain) (s s' : State),
    chain_ok (heap s) (chain c) ->
    add_blocks fuel clock d i block_data_list c s = Ok (c', s') ->
    chain_ok (heap s') (chain c') /\
    length (heap s') = (length (heap s) + length block_data_list)%nat /\
    (forall x b, heap s !! x = Some b -> heap s' !! x = Some b) /\
    (forall (k : nat) (dk : string), block_data_list !! k = Some dk ->
       exists b, heap s' !! (length (heap s) + k)%nat = Some b /\
                 index b = i + Z.of_nat k /\ data b = Some dk /\ difficulty b = d).
Proof.
  induction block_data_list as [|dat rest IH]; intros i c c' s s' Hok H;
    cbn [add_blocks] in H.
  - apply ret_inv in H as [-> ->]. conjs; [exact Hok | cbn; lia | eauto |].
    intros k dk Hk. discriminate.
  - apply bind_inv in H as (u & s1 & Hprint & H).
    unfold print in Hprint. injection Hprint as _ <-.
    apply bind_inv in H as (nb & s2 & Hinit & H).
    apply bind_inv in H as (c1 & s3 & Hadd & H).
    assert (Hadd' : add fuel (mkRequest (clock i) i (Some dat) d) c
                        (mkState (heap s) (stdout s ++ [adding_line i dat]))
                    = Ok (c1, s3)).
    { unfold add, bind. cbn [req_now req_index req_data req_difficulty].
      rewrite Hinit. exact Hadd. }
    pose proof (add_chain_ok fuel _ c c1
                  (mkState (heap s) (stdout s ++ [adding_line i dat])) s3 Hok Hadd') as Hok1.
    destruct (IH _ _ _ _ _ Hok1 H) as (Hok' & Hlen & Hframe & Hnew).
    apply add_inv in Hadd' as (latest & lb & b' & out & _ & _ & Hmine & -> & ->).
    apply mine_block_inv in Hmine as (n & _ & -> & _).
    cbn [heap stdout] in *. rewrite length_app in Hlen, Hnew.
    cbn [length] in Hlen, Hnew.
    conjs; [exact Hok' | cbn [length]; lia | |].
    + intros x b Hx. apply Hframe. rewrite lookup_app_l; [exact Hx |].
      eapply lookup_lt_Some, Hx.
    + intros [|k] dk Hk.
      * injection Hk as <-.
        eexists. replace (length (heap s) + 0)%nat with (length (heap s)) by lia.
        split; [apply Hframe, lookup_fresh |].
        conjs; [cbn; lia | reflexivity | reflexivity].
      * destruct (Hnew k dk Hk) as (b1 & Hb1 & Hi1 & Hrest).
        exists b1.
        replace (length (heap s) + S k)%nat with (length (heap s) + 1 + k)%nat by lia.
        conjs; [exact Hb1 | lia | apply Hrest | apply Hrest].
Qed.

(** X17: when the driver returns, the last line it printed is the
    confirmation that the chain is valid; the store holds one new object for
    the genesis block and one for every payload, in order, block [k]
    carrying index [k], its payload and the driver's difficulty; the objects
    that were in the store are untouched. *)
Theorem driver_confirms (fuel : nat) (clock : Z -> pyfloat) (d : Z)
    (block_data_list : list string) (s s' : State) :
  driver fuel clock d block_data_list s = Ok (tt, s') ->
  last (stdout s') = Some confirm_line /\
  length (heap s') = (length (heap s) + S (length block_data_list))%nat /\
  (forall x b, heap s !! x = Some b -> heap s' !! x = Some b) /\
  (exists g, heap s' !! length (heap s) = Some g /\
             index g = 0 /\ data g = Some "Genesis Block"%string /\
             prev_hash g = Some "0"%string /\ difficulty g = d) /\
  (forall (k : nat) (dk : string), block_data_list !! k = Some dk ->
     exists b, heap s' !! (length (heap s) + S k)%nat = Some b /\
               index b = Z.of_nat (S k) /\ data b = Some dk /\ difficulty b = d).
Proof.
  unfold driver. intros H.
  apply bind_inv in H as (c0 & s0 & Hinit & H).
  apply bind_inv in H as (c1 & s1 & Hloop & Hsim).
  apply Blockchain_init_inv in Hinit as (g & out & Hmine & -> & ->).
  pose proof (mine_block_sealed _ _ _ _ Hmine) as [Hsealed _].
  apply mine_block_inv in Hmine as (n & _ & Hg & _).
  pose proof (chain_ok_genesis (heap s) g Hsealed) as Hok0.
  destruct (add_blocks_inv fuel clock d block_data_list 1
              (mkBlockchain [length (heap s)] d) c1
              (mkState (heap s ++ [g]) (stdout s ++ out)) s1 Hok0 Hloop)
    as (Hok1 & Hlen & Hframe & Hnew).
  rewrite (simulate_confirms c1 s1 Hok1) in Hsim. injection Hsim as <-.
  cbn [heap stdout] in *. rewrite length_app in Hlen, Hnew. cbn [length] in Hlen, Hnew.
  conjs.
  - now rewrite (app_assoc _ [simulate_header] [confirm_line]), last_snoc.
  - lia.
  - intros x b Hx. apply Hframe. rewrite lookup_app_l; [exact Hx |].
    eapply lookup_lt_Some, Hx.
  - exists g. split; [apply Hframe, lookup_fresh |].
    rewrite Hg. conjs; reflexivity.
  - intros k dk Hk. destruct (Hnew k dk Hk) as (b & Hb & Hi & Hrest).
    exists b.
    replace (length (heap s) + S k)%nat with (length (heap s) + 1 + k)%nat by lia.
    conjs; [exact Hb | lia | apply Hrest | apply Hrest].
Qed.

(** The clock readings of the demo run. *)
Definition demo_clock (i : Z) : pyfloat :=
  match i with
  | 0 => PyFloat "1700000318.5"
  | 1 => PyFloat "1700000319.25"
  | _ => PyFloat "1700000320.75"
  end.

Definition demo_data : list string :=
  ["Transaction Data #1"; "Transaction Data #2"]%string.

Definition demo_driver_state : State :=
  Eval vm_compute in state_of (driver 10 demo_clock 1 demo_data empty_state).

Lemma demo_driver_eq :
  driver 10 demo_clock 1 demo_data empty_state = Ok (tt, demo_driver_state).
Proof. vm_compute. reflexivity. Qed.

Lemma driver_confirms_witness :
  last (stdout demo_driver_state) = Some confirm_line /\
  length (heap demo_driver_state) = (length (heap empty_state) + S (length demo_data))%nat /\
  (forall x b, heap empty_state !! x = Some b -> heap demo_driver_state !! x = Some b) /\
  (exists g, heap demo_driver_state !! length (heap empty_state) = Some g /\
             index g = 0 /\ data g = Some "Genesis Block"%string /\
             prev_hash g = Some "0"%string /\ difficulty g = 1) /\
  (forall (k : nat) (dk : string), demo_data !! k = Some dk ->
     exists b, heap demo_driver_state !! (length (heap empty_state) + S k)%nat = Some b /\
               index b = Z.of_nat (S k) /\ data b = Some dk /\ difficulty b = 1).
Proof.
  exact (driver_confirms 10 demo_clock 1 demo_data empty_state demo_driver_state
           demo_driver_eq).
Defined.

Example demo_driver_output :
  stdout demo_driver_state =
  ["Mining block #0 ...";
   "Block #0 mined! Nonce: 3 | Hash: 04b54bb54b5da87d83c2e9b731edd79d0fd5e9b22d95231a3690332c54145a68";
   adding_line 1 "Transaction Data #1";
   "Mining block #1 ...";
   "Block #1 mined! Nonce: 1 | Hash: 0eae41d6b2f36d44e695b09d72db6a1479c087c8fc254327f43d095ad3449b02";
   adding_line 2 "Transaction Data #2";
   "Mining block #2 ...";
   "Block #2 mined! Nonce: 2 | Hash: 0afd90bb643217ea78ef52ede4eb04c14af2ce5834327c917c933bcd70db601d";
   simulate_header;
   confirm_line]%string.
Proof. reflexivity. Qed.

(** ** The constructor of the chain, and its latest block *)



(** X19: [Blockchain(difficulty)], when it returns, has made one new object
    and a chain of that one block: index 0, the given timestamp, payload
    [Genesis Block], [prev_hash] ["0"], the given difficulty; its hash is
    the digest of its fields and starts with [difficulty] zeros; the objects
    that were in the store are untouched. *)
Theorem Blockchain_init_genesis (fuel : nat) (now : pyfloat) (d : Z)
    (s s' : State) (c : Blockchain) :
  Blockchain_init fuel now d s = Ok (c, s') ->
  chain c = [length (heap s)] /\ chain_difficulty c = d /\
  length (heap s') = S (length (heap s)) /\
  (forall x b, heap s !! x = Some b -> heap s' !! x = Some b) /\
  exists g : Block,
    heap s' !! length (heap s) = Some g /\
    index g = 0 /\ timestamp g = now /\ data g = Some "Genesis Block"%string /\
    prev_hash g = Some "0"%string /\ difficulty g = d /\
    hash g = Some (compute_hash g) /\
    forall i : nat, (i < Z.to_nat d)%nat ->
      String.get i (compute_hash g) = Some "0"%char.
Proof.
  intros H. apply Blockchain_init_inv in H as (g & out & Hmine & -> & ->).
  pose proof (mine_block_sealed _ _ _ _ Hmine) as [[Hh Hz] _].
  apply mine_block_inv in Hmine as (n & _ & Hg & _).
  cbn [heap chain chain_difficulty]. conjs; try reflexivity.
  - rewrite length_app. cbn. lia.
  - intros x b Hx. rewrite lookup_app_l; [exact Hx | eapply lookup_lt_Some, Hx].
  - exists g. split; [apply lookup_fresh |].
    assert (Hd : difficulty g = d) by (rewrite Hg; reflexivity).
    conjs; try (rewrite Hg; reflexivity).
    apply startswith_repeat_get. rewrite <- Hd. exact Hz.
Qed.

Definition demo_genesis_built : outcome (Blockchain * State) :=
  Eval vm_compute in Blockchain_init 10 (PyFloat "1700000318.5") 1 empty_state.

Definition demo_genesis_chain : Blockchain :=
  match demo_genesis_built with Ok (c, _) => c | _ => mkBlockchain [] 0 end.

Definition demo_genesis_state : State :=
  match demo_genesis_built with Ok (_, s) => s | _ => empty_state end.

Lemma demo_genesis_eq :
  Blockchain_init 10 (PyFloat "1700000318.5") 1 empty_state
  = Ok (demo_genesis_chain, demo_genesis_state).
Proof. vm_compute. reflexivity. Qed.

Lemma Blockchain_init_genesis_witness :
  chain demo_genesis_chain = [length (heap empty_state)] /\
  chain_difficulty demo_genesis_chain = 1 /\
  length (heap demo_genesis_state) = S (length (heap empty_state)) /\
  (forall x b, heap empty_state !! x = Some b -> heap demo_genesis_state !! x = Some b) /\
  exists g : Block,
    heap demo_genesis_state !! length (heap empty_state) = Some g /\
    index g = 0 /\ timestamp g = PyFloat "1700000318.5" /\
    data g = Some "Genesis Block"%string /\
    prev_hash g = Some "0"%string /\ difficulty g = 1 /\
    hash g = Some (compute_hash g) /\
    forall i : nat, (i < Z.to_nat 1)%nat ->
      String.get i (compute_hash g) = Some "0"%char.
Proof.
  exact (Blockchain_init_genesis 10 (PyFloat "1700000318.5") 1 empty_state
           demo_genesis_state demo_genesis_chain demo_genesis_eq).
Defined.

Lemma last_cons_default {A : Type} (l : list A) :
  forall x d : A, List.last (x :: l) d = List.last l x.
Proof.
  induction l as [|y l IH]; intros x d; [reflexivity |].
  change (List.last (x :: y :: l) d) with (List.last (y :: l) d).
  now rewrite !IH.
Qed.

Lemma add_all_latest (fuel : nat) (rs : list request) :
  forall (c c' : Blockchain) (s s' : State) (l : loc) (b : Block) (dflt : request),
    last (chain c) = Some l -> heap s !! l = Some b ->
    index b = req_index dflt -> data b = req_data dflt ->
    add_all fuel rs c s = Ok (c', s') ->
    exists l' b',
      last (chain c') = Some l' /\ heap s' !! l' = Some b' /\
      index b' = req_index (List.last rs dflt) /\
      data b' = req_data (List.last rs dflt).
Proof.
  induction rs as [|r rest IH]; intros c c' s s' l b dflt Hlast Hb Hi Hd H;
    cbn [add_all] in H.
  - apply ret_inv in H as [-> ->]. exists l, b. auto.
  - apply bind_inv in H as (c1 & s1 & Hadd & H).
    apply add_inv in Hadd as (latest & lb & b1 & out & _ & _ & Hmine & -> & ->).
    apply mine_block_inv in Hmine as (n & _ & Hb1 & _).
    assert (Hl1 : last (chain (append c (length (heap s)))) = Some (length (heap s)))
      by apply last_snoc.
    assert (Hn1 : heap (mkState (heap s ++ [b1]) (stdout s ++ out)) !! length (heap s)
                  = Some b1) by apply lookup_fresh.
    assert (Hi1 : index b1 = req_index r) by (rewrite Hb1; reflexivity).
    assert (Hd1 : data b1 = req_data r) by (rewrite Hb1; reflexivity).
    destruct (IH _ _ _ _ _ _ r Hl1 Hn1 Hi1 Hd1 H)
      as (l' & b' & Hl' & Hb' & Hi' & Hd').
    exists l', b'. rewrite last_cons_default. auto.
Qed.

(** X20: on a chain built by the driver's steps [get_latest_block] raises
    nothing and returns the block of the last pass, the genesis block when
    there was none. *)
Theorem get_latest_block_of_built (fuel : nat) (now : pyfloat) (d : Z)
    (rs : list request) (s s' : State) (c : Blockchain) :
  build fuel now d rs s = Ok (c, s') ->
  exists (l : loc) (b : Block),
    get_latest_block c s' = Ok (l, s') /\
    heap s' !! l = Some b /\
    index b = req_index (List.last rs (mkRequest now 0 (Some "Genesis Block"%string) d)) /\
    data b = req_data (List.last rs (mkRequest now 0 (Some "Genesis Block"%string) d)).
Proof.
  unfold build. intros H.
  apply bind_inv in H as (c0 & s0 & Hinit & H).
  apply Blockchain_init_inv in Hinit as (g & out & Hmine & -> & ->).
  apply mine_block_inv in Hmine as (n & _ & Hg & _).
  assert (Hi0 : index g = 0) by (rewrite Hg; reflexivity).
  assert (Hd0 : data g = Some "Genesis Block"%string) by (rewrite Hg; reflexivity).
  destruct (add_all_latest fuel rs (mkBlockchain [length (heap s)] d) c
              (mkState (heap s ++ [g]) (stdout s ++ out)) s' (length (heap s)) g
              (mkRequest now 0 (Some "Genesis Block"%string) d)
              eq_refl (lookup_fresh _ _) Hi0 Hd0 H)
    as (l & b & Hl & Hb & Hi & Hd).
  exists l, b. unfold get_latest_block. rewrite Hl. auto.
Qed.

Lemma get_latest_block_of_built_witness :
  exists (l : loc) (b : Block),
    get_latest_block demo_chain demo_state = Ok (l, demo_state) /\
    heap demo_state !! l = Some b /\
    index b = req_index (List.last demo_requests
                (mkRequest (PyFloat "1700000318.5") 0 (Some "Genesis Block"%string) 1)) /\
    data b = req_data (List.last demo_requests
                (mkRequest (PyFloat "1700000318.5") 0 (Some "Genesis Block"%string) 1)).
Proof.
  exact (get_latest_block_of_built 10 (PyFloat "1700000318.5") 1 demo_requests
           empty_state demo_state demo_chain demo_build_eq).
Defined.

(** ** Adding a block that is in the chain already *)

Lemma add_block_inv (fuel : nat) (c c' : Blockchain) (nb : loc) (s s' : State) :
  add_block fuel c nb s = Ok (c', s') ->
  exists latest lb b bt out,
    last (chain c) = Some latest /\
    heap s !! latest = Some lb /\
    heap s !! nb = Some b /\
    mine_block fuel (with_prev_hash b (hash lb)) = Some (bt, out) /\
    c' = append c nb /\
    s' = mkState (<[nb := bt]> (heap s)) (stdout s ++ out).
Proof.
  unfold add_block, get_latest_block. intros H.
  destruct (last (chain c)) as [latest|] eqn:Hlast.
  2:{ apply bind_inv in H as (? & ? & H & _). discriminate. }
  apply bind_inv in H as (latest' & s1 & Hret & H).
  apply ret_inv in Hret as [-> ->].
  apply bind_inv in H as (lb & s1 & Hlb & H).
  apply read_inv in Hlb as [Hlb ->].
  apply bind_inv in H as (b & s1 & Hnb & H).
  apply read_inv in Hnb as [Hnb ->].
  apply bind_inv in H as (u & s1 & Hw & H).
  apply write_inv in Hw as [Hlt ->].
  apply bind_inv in H as (u' & s2 & Hmine & Hret).
  apply ret_inv in Hret as [-> ->].
  apply mine_block_at_inv in Hmine as (b1 & bt & out & Hb1 & Hmine & ->).
  cbn [heap stdout] in *.
  rewrite list_lookup_insert_eq in Hb1 by exact Hlt. injection Hb1 as <-.
  exists latest, lb, b, bt, out. rewrite list_insert_insert_eq.
  conjs; first [assumption | reflexivity].
Qed.

(** X21: [add_block] given the block that is the last of a valid chain
    already (an object the chain holds nowhere else, with a record before it
    whose hash is another) relinks that object to its own old hash and mines
    it again: the chain then holds it twice and is no longer valid;
    [is_chain_valid] reports a [prev_hash] mismatch at it. *)
Theorem add_block_of_latest_breaks_chain (fuel : nat) (c c' : Blockchain)
    (s s' : State) (k : nat) (l lp : loc) (b pb : Block) :
  is_chain_valid c s = Ok (true, s) ->
  (1 <= k)%nat ->
  length (chain c) = S k ->
  chain c !! k = Some l ->
  (forall i : nat, (i < k)%nat -> chain c !! i <> Some l) ->
  heap s !! l = Some b ->
  chain c !! (k - 1)%nat = Some lp ->
  heap s !! lp = Some pb ->
  hash b <> hash pb ->
  add_block fuel c l s = Ok (c', s') ->
  chain c' = chain c ++ [l] /\
  is_chain_valid c' s' =
    Ok (false, mkState (heap s') (stdout s' ++ [prev_hash_mismatch_line b])).
Proof.
  intros Hvalid Hk Hlen Hl Hfirst Hb Hlp Hpb Hne Hadd.
  apply add_block_inv in Hadd
    as (latest & lb & b0 & bt & out & Hlast & Hlb & Hb0 & Hmine & -> & ->).
  rewrite last_lookup, Hlen in Hlast. cbn [pred] in Hlast.
  rewrite Hl in Hlast. injection Hlast as <-.
  rewrite Hb in Hlb, Hb0. injection Hlb as <-. injection Hb0 as <-.
  split; [reflexivity |].
  apply is_chain_valid_true_inv in Hvalid as [_ Hpass].
  pose proof (mine_block_inv _ _ _ _ Hmine) as (n & _ & Hbt & _).
  apply mine_block_sealed in Hmine as [[Hsealed _] Hprev].
  assert (Hidx : prev_hash_mismatch_line bt = prev_hash_mismatch_line b)
    by (rewrite Hbt; reflexivity).
  rewrite <- Hidx.
  apply (is_chain_valid_first_failure
           (mkState (<[l := bt]> (heap s)) (stdout s ++ out)) c (append c l)
           k bt pb link_mismatch).
  - lia.
  - intros i Hi. cbn [heap]. apply passes_untouched with (b := b);
      [exact Hb | apply Hfirst; lia | apply Hfirst; lia | apply Hpass; lia].
  - cbn [heap]. exists l, lp. conjs; [exact Hl | exact Hlp | |].
    + apply list_lookup_insert_eq. eapply lookup_lt_Some, Hb.
    + rewrite list_lookup_insert_ne; [exact Hpb |].
      intros ->. apply (Hfirst (k - 1)%nat); [lia | exact Hlp].
  - apply check_record_link. split; [exact Hsealed |].
    rewrite Hprev. exact Hne.
  - cbn [append chain]. rewrite take_app_le by lia. reflexivity.
Qed.

Definition demo_readded : outcome (Blockchain * State) :=
  Eval vm_compute in add_block 5 demo_chain 2%nat demo_state.

Definition demo_readded_chain : Blockchain :=
  match demo_readded with Ok (c, _) => c | _ => demo_chain end.

Definition demo_readded_state : State :=
  match demo_readded with Ok (_, s) => s | _ => demo_state end.

Lemma demo_readded_eq :
  add_block 5 demo_chain 2%nat demo_state = Ok (demo_readded_chain, demo_readded_state).
Proof. vm_compute. reflexivity. Qed.

Lemma add_block_of_latest_breaks_chain_witness :
  chain demo_readded_chain = chain demo_chain ++ [2%nat] /\
  is_chain_valid demo_readded_chain demo_readded_state =
    Ok (false, mkState (heap demo_readded_state)
                       (stdout demo_readded_state ++ [prev_hash_mismatch_line demo_block_2])).
Proof.
  refine (add_block_of_latest_breaks_chain 5 demo_chain demo_readded_chain
            demo_state demo_readded_state 2%nat 2%nat 1%nat demo_block_2 demo_block_1
            demo_valid _ eq_refl eq_refl _ eq_refl eq_refl eq_refl _ demo_readded_eq).
  - lia.
  - intros i Hi Hl. apply demo_chain_lookup in Hl. lia.
  - discriminate.
Defined.
